(** * Rescue-bots city simulation: a shallow embedding of [rescue_bots_sim.py]

    The simulation engine ([RescueBotsSimulation]) is embedded function by
    function.  Conventions of the embedding:

    - Python [float] values are exact rationals ([Q]); Python [int] counts
      and identities are [nat], the fire priority is [Z] (it is negated in
      the assignment key).
    - [math.sqrt] is a parameter of the development ([sqrt], a variable of
      the section): every theorem holds for whatever it returns.
    - The module-level generator of [random] is part of the world: an
      arbitrary sequence of 53-bit integers ([entropy]) and a [cursor].
    - The world is one value threaded through a state-and-exception monad
      ([Sim]); objects mutated in place are list entries rewritten in place.
      [IndexError], [ValueError] and [ZeroDivisionError] are results. *)

From Stdlib Require Import List ZArith QArith Qminmax Lia Lqa Bool Arith.
Import ListNotations.

Open Scope Q_scope.

(** ** Numbers *)

(** [a < b], [a <= b] and [a == b] on floats, as booleans. *)
Definition Qltb (a b : Q) : bool :=
  match a ?= b with Lt => true | _ => false end.

Definition Qleb (a b : Q) : bool := Qle_bool a b.

Definition Qeqb (a b : Q) : bool := Qeq_bool a b.

(** Python's [min(a, b)]: the first argument unless the second is smaller. *)
Definition py_min (a b : Q) : Q := if Qltb b a then b else a.

(** Python's [min(a, b, c)]. *)
Definition py_min3 (a b c : Q) : Q := py_min (py_min a b) c.

(** ** Exceptions and the simulation monad *)

Inductive exn : Type := IndexError | ValueError | ZeroDivisionError.

Inductive result (A : Type) : Type :=
| Ok (a : A)
| Raise (e : exn).

Arguments Ok {A} a.
Arguments Raise {A} e.

(** ** Data model *)

Inductive RobotType : Type := SCOUT | STANDARD | HEAVY.

Record Building : Type := mkBuilding {
  b_id : nat;
  b_x : Q;
  b_y : Q;
  on_fire : bool;
  fire_intensity : Q;
  fire_start_time : Q;
  destroyed : bool
}.

Record Robot : Type := mkRobot {
  r_id : nat;
  r_x : Q;
  r_y : Q;
  robot_type : RobotType;
  speed : Q;
  target_building : option nat;
  target_station : option nat;
  extinguishing : bool;
  water_capacity : Q;
  max_water_capacity : Q;
  extinguish_rate : Q;
  fires_extinguished : nat;
  distance_traveled : Q
}.

Record Fire : Type := mkFire {
  building_id : nat;
  intensity : Q;
  spread_rate : Q;
  priority : Z
}.

Record WaterStation : Type := mkWaterStation {
  s_id : nat;
  s_x : Q;
  s_y : Q;
  refill_rate : Q
}.

(** The state of the [random] module. [random.random()] reads the next
    53-bit integer of [entropy]. *)
Record Random : Type := mkRandom {
  entropy : nat -> Z;
  cursor : nat
}.

Record RescueBotsSimulation : Type := mkSim {
  city_size : Q;
  num_robots : nat;
  num_buildings : nat;
  num_fires : nat;
  num_stations : nat;
  buildings : list Building;
  robots : list Robot;
  fires : list Fire;
  water_stations : list WaterStation;
  time : Q;
  dt : Q;
  total_fires_started : nat;
  total_fires_extinguished : nat;
  total_buildings_destroyed : nat;
  response_times : list Q;
  rng : Random
}.

(** *** Field updates *)

Definition set_on_fire (v : bool) (b : Building) : Building :=
  mkBuilding (b_id b) (b_x b) (b_y b) v (fire_intensity b)
             (fire_start_time b) (destroyed b).

Definition set_fire_intensity (v : Q) (b : Building) : Building :=
  mkBuilding (b_id b) (b_x b) (b_y b) (on_fire b) v
             (fire_start_time b) (destroyed b).

Definition set_fire_start_time (v : Q) (b : Building) : Building :=
  mkBuilding (b_id b) (b_x b) (b_y b) (on_fire b) (fire_intensity b)
             v (destroyed b).

Definition set_destroyed (v : bool) (b : Building) : Building :=
  mkBuilding (b_id b) (b_x b) (b_y b) (on_fire b) (fire_intensity b)
             (fire_start_time b) v.

Definition set_r_x (v : Q) (r : Robot) : Robot :=
  mkRobot (r_id r) v (r_y r) (robot_type r) (speed r) (target_building r)
          (target_station r) (extinguishing r) (water_capacity r)
          (max_water_capacity r) (extinguish_rate r) (fires_extinguished r)
          (distance_traveled r).

Definition set_r_y (v : Q) (r : Robot) : Robot :=
  mkRobot (r_id r) (r_x r) v (robot_type r) (speed r) (target_building r)
          (target_station r) (extinguishing r) (water_capacity r)
          (max_water_capacity r) (extinguish_rate r) (fires_extinguished r)
          (distance_traveled r).

Definition set_target_building (v : option nat) (r : Robot) : Robot :=
  mkRobot (r_id r) (r_x r) (r_y r) (robot_type r) (speed r) v
          (target_station r) (extinguishing r) (water_capacity r)
          (max_water_capacity r) (extinguish_rate r) (fires_extinguished r)
          (distance_traveled r).

Definition set_target_station (v : option nat) (r : Robot) : Robot :=
  mkRobot (r_id r) (r_x r) (r_y r) (robot_type r) (speed r)
          (target_building r) v (extinguishing r) (water_capacity r)
          (max_water_capacity r) (extinguish_rate r) (fires_extinguished r)
          (distance_traveled r).

Definition set_water_capacity (v : Q) (r : Robot) : Robot :=
  mkRobot (r_id r) (r_x r) (r_y r) (robot_type r) (speed r)
          (target_building r) (target_station r) (extinguishing r) v
          (max_water_capacity r) (extinguish_rate r) (fires_extinguished r)
          (distance_traveled r).

Definition set_fires_extinguished (v : nat) (r : Robot) : Robot :=
  mkRobot (r_id r) (r_x r) (r_y r) (robot_type r) (speed r)
          (target_building r) (target_station r) (extinguishing r)
          (water_capacity r) (max_water_capacity r) (extinguish_rate r) v
          (distance_traveled r).

Definition set_distance_traveled (v : Q) (r : Robot) : Robot :=
  mkRobot (r_id r) (r_x r) (r_y r) (robot_type r) (speed r)
          (target_building r) (target_station r) (extinguishing r)
          (water_capacity r) (max_water_capacity r) (extinguish_rate r)
          (fires_extinguished r) v.

Definition set_intensity (v : Q) (f : Fire) : Fire :=
  mkFire (building_id f) v (spread_rate f) (priority f).

Definition set_buildings (v : list Building) (w : RescueBotsSimulation) :=
  mkSim (city_size w) (num_robots w) (num_buildings w) (num_fires w)
        (num_stations w) v (robots w) (fires w) (water_stations w) (time w)
        (dt w) (total_fires_started w) (total_fires_extinguished w)
        (total_buildings_destroyed w) (response_times w) (rng w).

Definition set_robots (v : list Robot) (w : RescueBotsSimulation) :=
  mkSim (city_size w) (num_robots w) (num_buildings w) (num_fires w)
        (num_stations w) (buildings w) v (fires w) (water_stations w) (time w)
        (dt w) (total_fires_started w) (total_fires_extinguished w)
        (total_buildings_destroyed w) (response_times w) (rng w).

Definition set_fires (v : list Fire) (w : RescueBotsSimulation) :=
  mkSim (city_size w) (num_robots w) (num_buildings w) (num_fires w)
        (num_stations w) (buildings w) (robots w) v (water_stations w) (time w)
        (dt w) (total_fires_started w) (total_fires_extinguished w)
        (total_buildings_destroyed w) (response_times w) (rng w).

Definition set_water_stations (v : list WaterStation)
    (w : RescueBotsSimulation) :=
  mkSim (city_size w) (num_robots w) (num_buildings w) (num_fires w)
        (num_stations w) (buildings w) (robots w) (fires w) v (time w)
        (dt w) (total_fires_started w) (total_fires_extinguished w)
        (total_buildings_destroyed w) (response_times w) (rng w).

Definition set_time (v : Q) (w : RescueBotsSimulation) :=
  mkSim (city_size w) (num_robots w) (num_buildings w) (num_fires w)
        (num_stations w) (buildings w) (robots w) (fires w) (water_stations w)
        v (dt w) (total_fires_started w) (total_fires_extinguished w)
        (total_buildings_destroyed w) (response_times w) (rng w).

Definition set_total_fires_started (v : nat) (w : RescueBotsSimulation) :=
  mkSim (city_size w) (num_robots w) (num_buildings w) (num_fires w)
        (num_stations w) (buildings w) (robots w) (fires w) (water_stations w)
        (time w) (dt w) v (total_fires_extinguished w)
        (total_buildings_destroyed w) (response_times w) (rng w).

Definition set_total_fires_extinguished (v : nat)
    (w : RescueBotsSimulation) :=
  mkSim (city_size w) (num_robots w) (num_buildings w) (num_fires w)
        (num_stations w) (buildings w) (robots w) (fires w) (water_stations w)
        (time w) (dt w) (total_fires_started w) v
        (total_buildings_destroyed w) (response_times w) (rng w).

Definition set_total_buildings_destroyed (v : nat)
    (w : RescueBotsSimulation) :=
  mkSim (city_size w) (num_robots w) (num_buildings w) (num_fires w)
        (num_stations w) (buildings w) (robots w) (fires w) (water_stations w)
        (time w) (dt w) (total_fires_started w) (total_fires_extinguished w)
        v (response_times w) (rng w).

Definition set_response_times (v : list Q) (w : RescueBotsSimulation) :=
  mkSim (city_size w) (num_robots w) (num_buildings w) (num_fires w)
        (num_stations w) (buildings w) (robots w) (fires w) (water_stations w)
        (time w) (dt w) (total_fires_started w) (total_fires_extinguished w)
        (total_buildings_destroyed w) v (rng w).

Definition set_rng (v : Random) (w : RescueBotsSimulation) :=
  mkSim (city_size w) (num_robots w) (num_buildings w) (num_fires w)
        (num_stations w) (buildings w) (robots w) (fires w) (water_stations w)
        (time w) (dt w) (total_fires_started w) (total_fires_extinguished w)
        (total_buildings_destroyed w) (response_times w) v.

(** *** The monad *)

Definition Sim (A : Type) : Type :=
  RescueBotsSimulation -> result (A * RescueBotsSimulation).

Definition ret {A : Type} (a : A) : Sim A := fun w => Ok (a, w).

Definition bind {A B : Type} (c : Sim A) (k : A -> Sim B) : Sim B :=
  fun w => match c w with
           | Ok (a, w') => k a w'
           | Raise e => Raise e
           end.

Definition raise {A : Type} (e : exn) : Sim A := fun _ => Raise e.

Definition gets {A : Type} (f : RescueBotsSimulation -> A) : Sim A :=
  fun w => Ok (f w, w).

Definition modify (f : RescueBotsSimulation -> RescueBotsSimulation)
  : Sim unit :=
  fun w => Ok (tt, f w).

Declare Scope sim_scope.
Delimit Scope sim_scope with sim.
Notation "x <- c ;; k" := (bind c (fun x => k))
  (at level 61, c at next level, right associativity) : sim_scope.
Notation "c ;;; k" := (bind c (fun _ => k))
  (at level 61, right associativity) : sim_scope.
Open Scope sim_scope.

(** [for x in l: body(x)]. *)
Fixpoint for_each {A : Type} (l : list A) (body : A -> Sim unit) : Sim unit :=
  match l with
  | [] => ret tt
  | x :: xs => body x ;;; for_each xs body
  end.

(** A loop that carries a local variable (here a Python list built by
    [append]) from one iteration to the next. *)
Fixpoint for_each_acc {A S : Type} (l : list A) (body : S -> A -> Sim S)
    (acc : S) : Sim S :=
  match l with
  | [] => ret acc
  | x :: xs => acc' <- body acc x ;; for_each_acc xs body acc'
  end.

(** [l[i]], raising [IndexError] out of range. *)
Definition index {A : Type} (l : list A) (i : nat) : Sim A :=
  match nth_error l i with
  | Some a => ret a
  | None => raise IndexError
  end.

(** [l[i] = v] on an index in range; a list is left as it is otherwise
    (every write below follows a successful read of the same index). *)
Fixpoint set_nth {A : Type} (i : nat) (v : A) (l : list A) : list A :=
  match l, i with
  | [], _ => []
  | _ :: xs, O => v :: xs
  | x :: xs, S j => x :: set_nth j v xs
  end.

(** Python's [min(l, key=key)]: the first element whose key is smallest;
    [None] stands for the [ValueError] on an empty sequence. *)
Definition py_min_by {A K : Type} (lt : K -> K -> bool) (key : A -> K)
    (l : list A) : option A :=
  match l with
  | [] => None
  | x :: xs =>
      Some (fst (fold_left
                   (fun best y =>
                      let ky := key y in
                      if lt ky (snd best) then (y, ky) else best)
                   xs (x, key x)))
  end.

(** Comparison of the tuples [(int, float)] used as assignment key:
    the first components decide unless they are equal. *)
Definition tuple_lt (a b : Z * Q) : bool :=
  if Z.eqb (fst a) (fst b)
  then (if Qeqb (snd a) (snd b) then false else Qltb (snd a) (snd b))
  else Z.ltb (fst a) (fst b).

(** ** The [random] module *)

(** [random.random()]: a multiple of [2^-53] in [[0, 1)]. *)
Definition random : Sim Q :=
  fun w =>
    let g := rng w in
    Ok (Qmake (entropy g (cursor g) mod 9007199254740992) 9007199254740992,
        set_rng (mkRandom (entropy g) (S (cursor g))) w).

(** [random.uniform(a, b)] is [a + (b - a) * random()]. *)
Definition uniform (a b : Q) : Sim Q :=
  u <- random ;; ret (a + (b - a) * u).

(** [randbelow(n)], for [n > 0]. *)
Definition randbelow (n : nat) : Sim nat :=
  fun w =>
    let g := rng w in
    Ok (Z.to_nat (entropy g (cursor g) mod Z.of_nat n),
        set_rng (mkRandom (entropy g) (S (cursor g))) w).

(** The selection loop of [random.sample]: [k] draws without replacement
    from [pool]. *)
Fixpoint sample_loop (k : nat) (pool : list nat) : Sim (list nat) :=
  match k with
  | O => ret []
  | S k' =>
      j <- randbelow (length pool) ;;
      rest <- sample_loop k' (firstn j pool ++ skipn (S j) pool) ;;
      ret (nth j pool O :: rest)
  end.

(** [random.sample(range(n), k)]: [ValueError] when the sample is larger
    than the population. *)
Definition sample_range (n k : nat) : Sim (list nat) :=
  if (k <=? n)%nat then sample_loop k (seq 0 n) else raise ValueError.

(** ** The engine *)

Definition is_none {A : Type} (o : option A) : bool :=
  match o with None => true | Some _ => false end.

(** [r.target_building == n] for an [Optional[int]] and an [int]. *)
Definition targets (n : nat) (r : Robot) : bool :=
  match target_building r with
  | Some t => (t =? n)%nat
  | None => false
  end.

(** The robots of [available_robots] (lines 190-191), by position. *)
Definition untargeted (r : Robot) : bool :=
  is_none (target_building r) && is_none (target_station r).

Fixpoint indices_where {A : Type} (p : A -> bool) (start : nat) (l : list A)
  : list nat :=
  match l with
  | [] => []
  | x :: xs =>
      if p x then start :: indices_where p (S start) xs
      else indices_where p (S start) xs
  end.

(** [self.robots[i] = robot] and [self.buildings[i] = building]: the write
    that makes an in-place mutation of the object visible in the world. *)
Definition store_robot (i : nat) (robot : Robot) : Sim unit :=
  modify (fun w => set_robots (set_nth i robot (robots w)) w).

Definition store_building (i : nat) (building : Building) : Sim unit :=
  modify (fun w => set_buildings (set_nth i building (buildings w)) w).

(** [a / b] on floats. *)
Definition py_div (a b : Q) : Sim Q :=
  if Qeqb b 0 then raise ZeroDivisionError else ret (a / b).

Section Engine.

(** [math.sqrt]. *)
Variable sqrt : Q -> Q.

(** Lines 183-185. *)
Definition distance (x1 y1 x2 y2 : Q) : Q :=
  sqrt ((x2 - x1) ^ 2 + (y2 - y1) ^ 2).

(** Lines 162-181. *)
Definition _calculate_fire_priority (bid : nat) (intensity0 : Q) : Sim Z :=
  bs <- gets buildings ;;
  building <- index bs bid ;;
  let nearby_count :=
    length (filter
              (fun b =>
                 Qltb (distance (b_x building) (b_y building) (b_x b) (b_y b))
                      15
                 && negb (destroyed b))
              bs) in
  ret (if Qltb 80 intensity0 && (10 <? nearby_count)%nat then 5%Z
       else if Qltb 60 intensity0 || (7 <? nearby_count)%nat then 4%Z
       else if Qltb 40 intensity0 || (4 <? nearby_count)%nat then 3%Z
       else if Qltb 20 intensity0 then 2%Z
       else 1%Z).

(** Lines 146-160. *)
Definition _start_fire (bid : nat) : Sim unit :=
  intensity0 <- uniform 50 100 ;;
  priority0 <- _calculate_fire_priority bid intensity0 ;;
  bs <- gets buildings ;;
  building <- index bs bid ;;
  now <- gets time ;;
  store_building bid
    (set_fire_start_time now
       (set_fire_intensity intensity0 (set_on_fire true building))) ;;;
  spread_rate0 <- uniform 0.5 2.0 ;;
  modify (fun w =>
            set_fires (fires w ++ [mkFire bid intensity0 spread_rate0 priority0])
                      w).

(** The comprehension of lines 204-207; each fire that passes the filter is
    paired with [self.buildings[f.building_id]], which the key of line 213
    reads again. *)
Fixpoint fires_needing_help (bs : list Building) (fs : list Fire)
  : Sim (list (Fire * Building)) :=
  match fs with
  | [] => ret []
  | f :: fs' =>
      if Qltb 0 (intensity f) then
        b <- index bs (building_id f) ;;
        rest <- fires_needing_help bs fs' ;;
        ret (if negb (destroyed b) && on_fire b then (f, b) :: rest else rest)
      else fires_needing_help bs fs'
  end.

(** The key of lines 214-219. *)
Definition fire_key (robot : Robot) (fb : Fire * Building) : Z * Q :=
  ((- priority (fst fb) * 100)%Z,
   distance (r_x robot) (r_y robot) (b_x (snd fb)) (b_y (snd fb))).

(** The key of line 197. *)
Definition station_key (robot : Robot) (s : WaterStation) : Q :=
  distance (r_x robot) (r_y robot) (s_x s) (s_y s).

(** The body of the loop of lines 193-221, for the robot at position [i]. *)
Definition assign_robot (i : nat) : Sim unit :=
  rs <- gets robots ;;
  robot <- index rs i ;;
  if Qltb (water_capacity robot) (max_water_capacity robot * 0.2) then
    sts <- gets water_stations ;;
    match py_min_by Qltb (station_key robot) sts with
    | None => raise ValueError
    | Some nearest_station =>
        store_robot i (set_target_station (Some (s_id nearest_station)) robot)
    end
  else if Qltb 0 (water_capacity robot) then
    fs <- gets fires ;;
    bs <- gets buildings ;;
    candidates <- fires_needing_help bs fs ;;
    match py_min_by tuple_lt (fire_key robot) candidates with
    | None => ret tt
    | Some best_fire =>
        store_robot i
          (set_target_building (Some (building_id (fst best_fire))) robot)
    end
  else ret tt.

(** Lines 187-221. *)
Definition assign_targets : Sim unit :=
  rs <- gets robots ;;
  let available_robots := indices_where untargeted 0 rs in
  for_each available_robots assign_robot.

(** Lines 243-247 and 287-291: one move towards [(tx, ty)]. *)
Definition move_towards (robot : Robot) (tx ty dist dt0 : Q) : Sim Robot :=
  let dx := tx - r_x robot in
  let dy := ty - r_y robot in
  let move_dist := py_min (speed robot * dt0) dist in
  qx <- py_div dx dist ;;
  let robot := set_r_x (r_x robot + qx * move_dist) robot in
  qy <- py_div dy dist ;;
  ret (set_r_y (r_y robot + qy * move_dist) robot).

(** Line 294, followed by the write of the robot. *)
Definition track_distance (i : nat) (last_x last_y : Q) (robot : Robot)
  : Sim unit :=
  store_robot i
    (set_distance_traveled
       (distance_traveled robot
        + distance last_x last_y (r_x robot) (r_y robot))
       robot).

(** The body of the loop of lines 225-294, for the robot at position [i]. *)
Definition update_robot (i : nat) : Sim unit :=
  rs <- gets robots ;;
  robot <- index rs i ;;
  dt0 <- gets dt ;;
  let last_x := r_x robot in
  let last_y := r_y robot in
  match target_station robot with
  | Some ts =>
      sts <- gets water_stations ;;
      station <- index sts ts ;;
      let dist := distance (r_x robot) (r_y robot) (s_x station) (s_y station) in
      if Qltb dist 2.0 then
        let refill_amount :=
          py_min (refill_rate station * dt0)
                 (max_water_capacity robot - water_capacity robot) in
        let robot :=
          set_water_capacity (water_capacity robot + refill_amount) robot in
        let robot :=
          if Qleb (max_water_capacity robot * 0.95) (water_capacity robot)
          then set_target_station None robot
          else robot in
        track_distance i last_x last_y robot
      else
        robot <- move_towards robot (s_x station) (s_y station) dist dt0 ;;
        track_distance i last_x last_y robot
  | None =>
      match target_building robot with
      | Some tb =>
          bs <- gets buildings ;;
          building <- index bs tb ;;
          if destroyed building || negb (on_fire building) then
            (* continue *)
            store_robot i (set_target_building None robot)
          else
            let dist :=
              distance (r_x robot) (r_y robot) (b_x building) (b_y building) in
            if Qltb dist 1.0 then
              if on_fire building && Qltb 0 (water_capacity robot) then
                let extinguish_amount :=
                  py_min3 (extinguish_rate robot * dt0)
                          (fire_intensity building)
                          (water_capacity robot) in
                let building :=
                  set_fire_intensity
                    (fire_intensity building - extinguish_amount) building in
                let robot :=
                  set_water_capacity
                    (water_capacity robot - extinguish_amount) robot in
                if Qleb (fire_intensity building) 0 then
                  let building :=
                    set_fire_intensity 0 (set_on_fire false building) in
                  let robot :=
                    set_fires_extinguished (S (fires_extinguished robot))
                                           robot in
                  store_building tb building ;;;
                  modify (fun w =>
                            set_total_fires_extinguished
                              (S (total_fires_extinguished w)) w) ;;;
                  now <- gets time ;;
                  let response_time := now - fire_start_time building in
                  modify (fun w =>
                            set_response_times
                              (response_times w ++ [response_time]) w) ;;;
                  modify (fun w =>
                            set_fires
                              (filter
                                 (fun f => negb (building_id f =? tb)%nat)
                                 (fires w))
                              w) ;;;
                  track_distance i last_x last_y
                                 (set_target_building None robot)
                else
                  store_building tb building ;;;
                  track_distance i last_x last_y robot
              else
                track_distance i last_x last_y
                               (set_target_building None robot)
            else
              robot <- move_towards robot (b_x building) (b_y building)
                                    dist dt0 ;;
              track_distance i last_x last_y robot
      | None => track_distance i last_x last_y robot
      end
  end.

(** Lines 223-294. *)
Definition update_robots : Sim unit :=
  rs <- gets robots ;;
  for_each (seq 0 (length rs)) update_robot.

(** Lines 332-351; [new_fires] is returned with the identity appended. *)
Definition _try_spread_fire (source_building : Building)
    (new_fires : list nat) : Sim (list nat) :=
  bs <- gets buildings ;;
  let spread_radius := 8.0 in
  let potential_targets :=
    flat_map
      (fun building =>
         if negb (b_id building =? b_id source_building)%nat
            && negb (on_fire building) && negb (destroyed building)
         then
           let dist :=
             distance (b_x source_building) (b_y source_building)
                      (b_x building) (b_y building) in
           if Qltb dist spread_radius then [(building, dist)] else []
         else [])
      bs in
  match py_min_by Qltb snd potential_targets with
  | None => ret new_fires
  | Some (building, dist) =>
      let spread_prob := 0.15 * (1 - dist / spread_radius) in
      u <- random ;;
      ret (if Qltb u spread_prob then new_fires ++ [b_id building]
           else new_fires)
  end.

(** The body of the loop of lines 300-324, for the fire at position [k]. *)
Definition update_fire (new_fires : list nat) (k : nat) : Sim (list nat) :=
  fs <- gets fires ;;
  fire <- index fs k ;;
  bs <- gets buildings ;;
  building <- index bs (building_id fire) ;;
  if on_fire building && negb (destroyed building) then
    dt0 <- gets dt ;;
    let building :=
      set_fire_intensity
        (fire_intensity building + spread_rate fire * dt0 * 0.7) building in
    let building :=
      set_fire_intensity (py_min (fire_intensity building) 200) building in
    let fire := set_intensity (fire_intensity building) fire in
    modify (set_fires (set_nth k fire fs)) ;;;
    store_building (building_id fire) building ;;;
    now <- gets time ;;
    if Qltb 180 (fire_intensity building)
       && Qltb 45 (now - fire_start_time building)
    then
      store_building (building_id fire)
                     (set_on_fire false (set_destroyed true building)) ;;;
      modify (fun w =>
                set_total_buildings_destroyed
                  (S (total_buildings_destroyed w)) w) ;;;
      (* Remove this fire *)
      (* continue *)
      ret new_fires
    else
      rs <- gets robots ;;
      let robots_nearby := length (filter (targets (b_id building)) rs) in
      if (robots_nearby =? 0)%nat then
        u <- random ;;
        if Qltb u (0.0001 * dt0 * fire_intensity building)
        then _try_spread_fire building new_fires
        else ret new_fires
      else ret new_fires
  else ret new_fires.

(** The body of the loop of lines 327-330. *)
Definition ignite (bid : nat) : Sim unit :=
  bs <- gets buildings ;;
  building <- index bs bid ;;
  if negb (on_fire building) then
    _start_fire bid ;;;
    modify (fun w => set_total_fires_started (S (total_fires_started w)) w)
  else ret tt.

(** Lines 296-330. *)
Definition update_fires : Sim unit :=
  fs <- gets fires ;;
  new_fires <- for_each_acc (seq 0 (length fs)) update_fire [] ;;
  for_each new_fires ignite.

(** Lines 353-358. *)
Definition step : Sim unit :=
  assign_targets ;;;
  update_robots ;;;
  update_fires ;;;
  modify (fun w => set_time (time w + dt w) w).

(** *** Initialization *)

Definition of_int (n : nat) : Q := inject_Z (Z.of_nat n).

(** The body of the loop of lines 82-87. *)
Definition _create_building (i : nat) : Sim unit :=
  cs <- gets city_size ;;
  x <- uniform 0 cs ;;
  y <- uniform 0 cs ;;
  modify (fun w =>
            set_buildings (buildings w ++ [mkBuilding i x y false 0 0 false])
                          w).

(** The body of the loop of lines 91-100; [grid_size] is line 90. *)
Definition _create_station (grid_size : nat) (i : nat) : Sim unit :=
  cs <- gets city_size ;;
  if (grid_size =? 0)%nat then raise ZeroDivisionError
  else
    let row := (i / grid_size)%nat in
    let col := (i mod grid_size)%nat in
    cw <- py_div cs (of_int grid_size) ;;
    let x := (of_int col + 0.5) * cw in
    ch <- py_div cs (of_int grid_size) ;;
    let y := (of_int row + 0.5) * ch in
    jx <- uniform (-10) 10 ;;
    jy <- uniform (-10) 10 ;;
    modify (fun w =>
              set_water_stations
                (water_stations w ++ [mkWaterStation i (x + jx) (y + jy) 50.0])
                w).

(** The body of the loop of lines 109-137. *)
Definition _create_robot (i : nat) : Sim unit :=
  cs <- gets city_size ;;
  rand <- random ;;
  let robot_type0 :=
    if Qltb rand 0.2 then SCOUT
    else if Qltb rand 0.7 then STANDARD else HEAVY in
  speed0 <-
    (if Qltb rand 0.2 then uniform 14 18
     else if Qltb rand 0.7 then uniform 8 12 else uniform 5 8) ;;
  let water :=
    if Qltb rand 0.2 then 50.0
    else if Qltb rand 0.7 then 120.0 else 250.0 in
  let extinguish :=
    if Qltb rand 0.2 then 3.0
    else if Qltb rand 0.7 then 6.0 else 10.0 in
  x <- uniform 0 cs ;;
  y <- uniform 0 cs ;;
  modify (fun w =>
            set_robots
              (robots w ++ [mkRobot i x y robot_type0 speed0 None None false
                                    water water extinguish 0 0])
              w).

(** Lines 79-144. *)
Definition _initialize_city : Sim unit :=
  nb <- gets num_buildings ;;
  for_each (seq 0 nb) _create_building ;;;
  ns <- gets num_stations ;;
  let grid_size := Nat.sqrt ns in
  for_each (seq 0 ns) (_create_station grid_size) ;;;
  nr <- gets num_robots ;;
  for_each (seq 0 nr) _create_robot ;;;
  nf <- gets num_fires ;;
  fire_buildings <- sample_range nb nf ;;
  for_each fire_buildings _start_fire ;;;
  modify (fun w => set_total_fires_started (num_fires w) w).

(** Lines 55-77: the constructor, from the configuration and the state of
    the random generator. *)
Definition __init__ (city_size0 : Q)
    (num_robots0 num_buildings0 num_fires0 num_stations0 : nat)
    (seed : Random) : result RescueBotsSimulation :=
  match _initialize_city
          (mkSim city_size0 num_robots0 num_buildings0 num_fires0
                 num_stations0 [] [] [] [] 0.0 0.1 0 0 0 [] seed) with
  | Ok (_, w) => Ok w
  | Raise e => Raise e
  end.

(** One call of [step], as a function on worlds. *)
Definition tick (w : RescueBotsSimulation) : result RescueBotsSimulation :=
  match step w with
  | Ok (_, w') => Ok w'
  | Raise e => Raise e
  end.

(** The worlds the program can be in: the constructor's, and those a
    sequence of [step] calls leads to. *)
Inductive reachable : RescueBotsSimulation -> Prop :=
| reachable_init cs nr nb nf ns seed w :
    __init__ cs nr nb nf ns seed = Ok w -> reachable w
| reachable_step w w' :
    reachable w -> tick w = Ok w' -> reachable w'.

End Engine.

(** ** Reasoning about [Sim] computations *)

(** [wpe E c Q w]: from [w], [c] returns with a value and a world in [Q],
    or raises an exception in [E]. *)
Definition wpe {A : Type} (E : exn -> Prop) (c : Sim A)
    (Q : A -> RescueBotsSimulation -> Prop) (w : RescueBotsSimulation)
  : Prop :=
  match c w with
  | Ok (a, w') => Q a w'
  | Raise e => E e
  end.

(** Total correctness: no exception is allowed. *)
Abbreviation wp := (wpe (fun _ => False)).

(** Partial correctness: every exception is allowed. *)
Abbreviation wlp := (wpe (fun _ => True)).

(** ** Well-formed worlds *)

Definition robot_ok (r : Robot) : Prop :=
  0 <= water_capacity r /\ water_capacity r <= max_water_capacity r
  /\ 0 <= extinguish_rate r
  /\ (target_building r = None \/ target_station r = None).

Definition building_ok (b : Building) : Prop := 0 <= fire_intensity b.

Definition fire_ok (n : nat) (f : Fire) : Prop :=
  0 < intensity f /\ 0 < spread_rate f /\ (building_id f < n)%nat.

Definition station_ok (s : WaterStation) : Prop := 0 <= refill_rate s.

Definition sum_extinguished (rs : list Robot) : nat :=
  fold_right (fun r n => (fires_extinguished r + n)%nat) O rs.

Record WF (w : RescueBotsSimulation) : Prop := mkWF {
  wf_dt : dt w = 0.1;
  wf_robots : Forall robot_ok (robots w);
  wf_buildings : Forall building_ok (buildings w);
  wf_fires : Forall (fire_ok (length (buildings w))) (fires w);
  wf_stations : Forall station_ok (water_stations w);
  wf_extinguished :
    total_fires_extinguished w = sum_extinguished (robots w);
  wf_responses :
    total_fires_extinguished w = length (response_times w)
}.

(** Where the target of a robot is: the station of [target_station] if it
    is set, the building of [target_building] otherwise (the order of the
    tests of lines 229 and 250). *)
Definition target_position (w : RescueBotsSimulation) (r : Robot)
  : option (Q * Q) :=
  match target_station r with
  | Some ts =>
      match nth_error (water_stations w) ts with
      | Some station => Some (s_x station, s_y station)
      | None => None
      end
  | None =>
      match target_building r with
      | Some tb =>
          match nth_error (buildings w) tb with
          | Some building => Some (b_x building, b_y building)
          | None => None
          end
      | None => None
      end
  end.

(** The placement of depot [i] (lines 92-99) on a grid of [grid_size]
    columns over a city of side [cs]: the centre of its cell, moved by at
    most 10 in each axis. *)
Definition station_placed (cs : Q) (grid_size i : nat) (s : WaterStation)
  : Prop :=
  exists jx jy,
    -10 <= jx /\ jx <= 10 /\ -10 <= jy /\ jy <= 10
    /\ s_x s = (of_int (i mod grid_size) + 0.5) * (cs / of_int grid_size) + jx
    /\ s_y s = (of_int (i / grid_size) + 0.5) * (cs / of_int grid_size) + jy.

(** The configuration of [w0] is the configuration of [w]. *)
Definition same_config (w0 w : RescueBotsSimulation) : Prop :=
  city_size w = city_size w0 /\ num_robots w = num_robots w0
  /\ num_buildings w = num_buildings w0 /\ num_fires w = num_fires w0
  /\ num_stations w = num_stations w0 /\ time w = time w0 /\ dt w = dt w0.

(** The world before the fires are started. *)
Definition unlit (w0 w : RescueBotsSimulation) : Prop :=
  same_config w0 w /\ fires w = []
  /\ Forall (fun b => on_fire b = false) (buildings w)
  /\ length (buildings w) = num_buildings w0
  /\ length (water_stations w) = num_stations w0
  /\ forall i s, nth_error (water_stations w) i = Some s ->
       station_placed (city_size w0) (Nat.sqrt (num_stations w0)) i s.

(** What one visit of the assignment loop may do to a robot. *)
Definition retargeted (r r' : Robot) : Prop :=
  r' = r
  \/ (exists s, r' = set_target_station (Some s) r)
  \/ (exists b, r' = set_target_building (Some b) r).

(** *** The choices of the assignment pass *)

(** The active fires whose structure is on fire and not destroyed. *)
Definition candidate (bs : list Building) (f : Fire) : bool :=
  match nth_error bs (building_id f) with
  | Some b => on_fire b && negb (destroyed b)
  | None => false
  end.

(** The filter of lines 204-207, on fires alone. *)
Definition needs_help (bs : list Building) (f : Fire) : bool :=
  Qltb 0 (intensity f) && candidate bs f.

(** The distance from a robot to the structure of a fire. *)
Definition fire_distance (sqrt : Q -> Q) (bs : list Building) (r : Robot)
    (f : Fire) : Q :=
  match nth_error bs (building_id f) with
  | Some b => distance sqrt (r_x r) (r_y r) (b_x b) (b_y b)
  | None => 0
  end.

(** The composite key [(-100 * priority, distance)]. *)
Definition composite_key (sqrt : Q -> Q) (bs : list Building) (r : Robot)
    (f : Fire) : Z * Q :=
  ((-100 * priority f)%Z, fire_distance sqrt bs r f).

(** The lexicographic order on keys. *)
Definition key_lt (a b : Z * Q) : Prop :=
  (fst a < fst b)%Z \/ (fst a = fst b /\ snd a < snd b).

Definition key_le (a b : Z * Q) : Prop :=
  (fst a < fst b)%Z \/ (fst a = fst b /\ snd a <= snd b).

(** [m] is the first element of [l] with the least key. *)
Definition first_least {A K : Type} (lt le : K -> K -> Prop) (key : A -> K)
    (l : list A) (m : A) : Prop :=
  exists l1 l2,
    l = l1 ++ m :: l2
    /\ (forall y, In y l1 -> lt (key m) (key y))
    /\ (forall y, In y l2 -> le (key m) (key y)).

(** The robot after its visit, when it is low on water: the first nearest
    station is its target. *)
Definition to_nearest_station (sqrt : Q -> Q) (sts : list WaterStation)
    (r r' : Robot) : Prop :=
  exists s,
    first_least Qlt Qle (station_key sqrt r) sts s
    /\ r' = set_target_station (Some (s_id s)) r.

(** The robot after its visit, when it has water: the first fire with the
    least key among those that need help is its target, if there is one. *)
Definition to_best_fire (sqrt : Q -> Q) (bs : list Building)
    (fs : list Fire) (r r' : Robot) : Prop :=
  (filter (needs_help bs) fs = [] /\ r' = r)
  \/ exists best,
       first_least key_lt key_le (composite_key sqrt bs r)
                   (filter (needs_help bs) fs) best
       /\ r' = set_target_building (Some (building_id best)) r.

(** The visit of lines 193-221. *)
Definition assigned (sqrt : Q -> Q) (w : RescueBotsSimulation)
    (r r' : Robot) : Prop :=
  if Qltb (water_capacity r) (max_water_capacity r * 0.2)
  then to_nearest_station sqrt (water_stations w) r r'
  else if Qltb 0 (water_capacity r)
       then to_best_fire sqrt (buildings w) (fires w) r r'
       else r' = r.

(** Every fire is on a building of the city. *)
Definition fires_in_range (w : RescueBotsSimulation) : Prop :=
  Forall (fun f => (building_id f < length (buildings w))%nat) (fires w).

(** Every fire record has a positive intensity. *)
Definition fires_alive (w : RescueBotsSimulation) : Prop :=
  Forall (fun f => 0 < intensity f) (fires w).

(** *** One robot next to a burning structure *)

(** [n] passes of the movement and action integrator. *)
Fixpoint passes (sqrt : Q -> Q) (n : nat) (w : RescueBotsSimulation)
  : result RescueBotsSimulation :=
  match n with
  | O => Ok w
  | S n' =>
      match update_robots sqrt w with
      | Ok (_, w') => passes sqrt n' w'
      | Raise e => Raise e
      end
  end.

(** The only robot of [w] targets structure [tb], is within the arrival
    radius of it, extinguishes 10 per unit of time, and has water for a
    fire of intensity [v], the intensity of the structure, which burns; the
    robot has extinguished [n] fires. *)
Definition fighting (sqrt : Q -> Q) (w : RescueBotsSimulation) (tb : nat)
    (v : Q) (n : nat) : Prop :=
  exists robot building,
    robots w = [robot]
    /\ target_station robot = None
    /\ target_building robot = Some tb
    /\ nth_error (buildings w) tb = Some building
    /\ on_fire building = true
    /\ destroyed building = false
    /\ distance sqrt (r_x robot) (r_y robot) (b_x building) (b_y building)
       < 1.0
    /\ extinguish_rate robot == 10
    /\ dt w == 0.1
    /\ fire_intensity building == v
    /\ v <= water_capacity robot
    /\ fires_extinguished robot = n.

(** *** One unattended fire *)

(** The world has no robot and one building, which has burnt since time 0,
    with intensity [v] at time [t]; its fire grows at rate [sr]. *)
Definition lone_fire (w : RescueBotsSimulation) (v t sr : Q) : Prop :=
  robots w = [] /\ dt w == 0.1 /\ time w == t
  /\ exists b f,
       buildings w = [b] /\ fires w = [f]
       /\ b_id b = O /\ building_id f = O
       /\ on_fire b = true /\ destroyed b = false
       /\ fire_intensity b == v /\ fire_start_time b == 0
       /\ spread_rate f == sr.

(** The number of structures with [on_fire == True]. *)
Definition burning (w : RescueBotsSimulation) : nat :=
  length (filter on_fire (buildings w)).

(** The state of the loop of lines 141-142: the fires started so far are
    those of [done], one per building, and no other building burns. *)
Definition lit (w0 : RescueBotsSimulation) (done : list nat)
    (w : RescueBotsSimulation) : Prop :=
  same_config w0 w
  /\ map building_id (fires w) = done
  /\ burning w = length done
  /\ (forall i b, nth_error (buildings w) i = Some b ->
        on_fire b = true -> In i done)
  /\ length (buildings w) = num_buildings w0
  /\ water_stations w = water_stations w0.

(** [n] calls of [step]. *)
Fixpoint run (sqrt : Q -> Q) (n : nat) (w : RescueBotsSimulation)
  : result RescueBotsSimulation :=
  match n with
  | O => Ok w
  | S n' =>
      match tick sqrt w with
      | Ok w' => run sqrt n' w'
      | Raise e => Raise e
      end
  end.

(** A square root for the evaluation of examples: exact on the squares of
    rationals, rounded down to a multiple of the denominator's inverse
    otherwise. *)
Definition sqrt_floor (q : Q) : Q :=
  Qmake (Z.sqrt (Qnum q * Zpos (Qden q))) (Qden q).

(** ** Example worlds *)

Definition example_seed : Random :=
  mkRandom (fun n => (Z.of_nat n * 1234567890123457 + 987654321)%Z) 0.

Definition no_robot : Robot :=
  mkRobot 0 0 0 STANDARD 0 None None false 0 0 0 0 0.

(** A small city, as the constructor builds it from [example_seed]. *)
Definition example_world : RescueBotsSimulation :=
  Eval vm_compute in
    match __init__ sqrt_floor 200 2 3 2 1 example_seed with
    | Ok w => w
    | Raise _ => mkSim 0 0 0 0 0 [] [] [] [] 0 0 0 0 0 [] example_seed
    end.

Definition example_robot : Robot := nth 0 (robots example_world) no_robot.

(** A world for the assignment pass: robot 0 has all its water, robot 1 is
    below a fifth of it; the two fires have the same priority and are at
    distances 7 and 3 from robot 0; the depots are at distances 5 and 4
    from robot 1. *)
Definition assign_world : RescueBotsSimulation :=
  mkSim 200 2 2 2 2
        [mkBuilding 0 0 7 true 60 0 false; mkBuilding 1 3 0 true 60 0 false]
        [mkRobot 0 0 0 STANDARD 10 None None false 120 120 6 0 0;
         mkRobot 1 10 10 STANDARD 10 None None false 10 120 6 0 0]
        [mkFire 0 60 1 3; mkFire 1 60 1 3]
        [mkWaterStation 0 10 15 50; mkWaterStation 1 14 10 50]
        0 0.1 2 0 0 [] example_seed.

Definition full_robot : Robot :=
  mkRobot 0 0 0 STANDARD 10 None None false 120 120 6 0 0.

Definition low_robot : Robot :=
  mkRobot 1 10 10 STANDARD 10 None None false 10 120 6 0 0.

(** A heavy robot next to building 0, which burns with intensity 5; the
    fire grows at rate 1. *)
Definition adjacent_world : RescueBotsSimulation :=
  mkSim 200 1 1 1 1
        [mkBuilding 0 0 (1 # 2) true 5 0 false]
        [mkRobot 0 0 0 HEAVY 6 (Some 0%nat) None false 250 250 10 0 0]
        [mkFire 0 5 1 1]
        [mkWaterStation 0 100 100 50]
        0 0.1 1 0 0 [] example_seed.

(** A building that has burnt for 50 units of time, with intensity 190,
    and its fire; no robot. *)
Definition destruction_world : RescueBotsSimulation :=
  mkSim 200 0 1 1 1
        [mkBuilding 0 50 50 true 190 0 false]
        []
        [mkFire 0 190 1 4]
        [mkWaterStation 0 100 100 50]
        50 0.1 1 0 0 [] example_seed.

(** A generator whose every draw is the largest one. *)
Definition largest_seed : Random :=
  mkRandom (fun _ => 9007199254740991%Z) 0.

(** A city of one building, on fire, without robots, as the constructor
    builds it from [largest_seed]. *)
Definition lone_fire_world : RescueBotsSimulation :=
  Eval vm_compute in
    match __init__ sqrt_floor 200 0 1 1 1 largest_seed with
    | Ok w => w
    | Raise _ => mkSim 0 0 0 0 0 [] [] [] [] 0 0 0 0 0 [] largest_seed
    end.

(** * Properties *)

(** ** Comparisons and minima *)

Lemma Qltb_true (a b : Q) : Qltb a b = true <-> a < b.
Proof.
  unfold Qltb. rewrite Qlt_alt. destruct (a ?= b); split; congruence.
Qed.

Lemma Qltb_false (a b : Q) : Qltb a b = false <-> b <= a.
Proof.
  rewrite <- not_true_iff_false, Qltb_true. split.
  - apply Qnot_lt_le.
  - apply Qle_not_lt.
Qed.

Lemma Qleb_true (a b : Q) : Qleb a b = true <-> a <= b.
Proof. apply Qle_bool_iff. Qed.

Lemma Qleb_false (a b : Q) : Qleb a b = false <-> b < a.
Proof.
  rewrite <- not_true_iff_false, Qleb_true. split.
  - apply Qnot_le_lt.
  - apply Qlt_not_le.
Qed.

Lemma Qeqb_true (a b : Q) : Qeqb a b = true <-> a == b.
Proof. apply Qeq_bool_iff. Qed.

Lemma Qeqb_false (a b : Q) : Qeqb a b = false <-> ~ a == b.
Proof. rewrite <- not_true_iff_false, Qeqb_true. tauto. Qed.

(** Boolean tests in the context become order facts. *)
Ltac qprop :=
  repeat match goal with
    | H : Qltb _ _ = true |- _ => apply Qltb_true in H
    | H : Qltb _ _ = false |- _ => apply Qltb_false in H
    | H : Qleb _ _ = true |- _ => apply Qleb_true in H
    | H : Qleb _ _ = false |- _ => apply Qleb_false in H
    | H : Qeqb _ _ = true |- _ => apply Qeqb_true in H
    | H : Qeqb _ _ = false |- _ => apply Qeqb_false in H
    end.

Lemma py_min_cases (a b : Q) :
  (b < a /\ py_min a b = b) \/ (a <= b /\ py_min a b = a).
Proof.
  unfold py_min. destruct (Qltb b a) eqn:E; qprop; auto.
Qed.

Lemma py_min_le_l (a b : Q) : py_min a b <= a.
Proof. destruct (py_min_cases a b) as [[? ->]|[? ->]]; lra. Qed.

Lemma py_min_le_r (a b : Q) : py_min a b <= b.
Proof. destruct (py_min_cases a b) as [[? ->]|[? ->]]; lra. Qed.

Lemma py_min_glb (a b c : Q) : c <= a -> c <= b -> c <= py_min a b.
Proof. destruct (py_min_cases a b) as [[? ->]|[? ->]]; lra. Qed.

Lemma py_min_glb_lt (a b c : Q) : c < a -> c < b -> c < py_min a b.
Proof. destruct (py_min_cases a b) as [[? ->]|[? ->]]; lra. Qed.

Lemma py_min3_le_2 (a b c : Q) : py_min3 a b c <= b.
Proof.
  unfold py_min3. pose proof (py_min_le_l (py_min a b) c).
  pose proof (py_min_le_r a b). lra.
Qed.

Lemma py_min3_le_3 (a b c : Q) : py_min3 a b c <= c.
Proof. apply py_min_le_r. Qed.

Lemma py_min3_glb (a b c d : Q) :
  d <= a -> d <= b -> d <= c -> d <= py_min3 a b c.
Proof. intros. unfold py_min3. auto using py_min_glb. Qed.

(** ** The random generator *)

Lemma random_unit (w : RescueBotsSimulation) :
  exists u g, random w = Ok (u, set_rng g w) /\ 0 <= u /\ u < 1.
Proof.
  unfold random. eexists _, _. split; [reflexivity|].
  pose proof (Z.mod_pos_bound (entropy (rng w) (cursor (rng w)))
                9007199254740992 eq_refl) as [H0 H1].
  unfold Qle, Qlt. simpl. lia.
Qed.

(** ** Lists *)

Lemma length_set_nth {A : Type} (i : nat) (v : A) (l : list A) :
  length (set_nth i v l) = length l.
Proof.
  revert i. induction l as [|x xs IH]; intros [|j]; simpl; auto.
Qed.

Lemma nth_error_set_nth_eq {A : Type} (i : nat) (v : A) (l : list A) :
  (i < length l)%nat -> nth_error (set_nth i v l) i = Some v.
Proof.
  revert i. induction l as [|x xs IH]; intros [|j] H; simpl in *;
    try lia; auto. apply IH. lia.
Qed.

Lemma nth_error_set_nth_neq {A : Type} (i j : nat) (v : A) (l : list A) :
  i <> j -> nth_error (set_nth i v l) j = nth_error l j.
Proof.
  revert i j. induction l as [|x xs IH]; intros [|i] [|j] H; simpl;
    try congruence; auto.
Qed.

Lemma Forall_set_nth {A : Type} (P : A -> Prop) (i : nat) (v : A)
    (l : list A) :
  Forall P l -> P v -> Forall P (set_nth i v l).
Proof.
  intros Hl Hv. revert i.
  induction Hl as [|x xs Hx Hxs IH]; intros [|j]; simpl; auto.
Qed.

Lemma Forall_nth_error {A : Type} (P : A -> Prop) (l : list A) (i : nat)
    (a : A) :
  Forall P l -> nth_error l i = Some a -> P a.
Proof.
  intros Hl Hi. rewrite Forall_forall in Hl.
  eauto using nth_error_In.
Qed.

Lemma nth_error_lt {A : Type} (l : list A) (i : nat) (a : A) :
  nth_error l i = Some a -> (i < length l)%nat.
Proof. intros H. apply nth_error_Some. congruence. Qed.

Lemma sum_extinguished_set_nth (i : nat) (r r' : Robot) (rs : list Robot) :
  nth_error rs i = Some r ->
  (sum_extinguished (set_nth i r' rs) + fires_extinguished r
   = sum_extinguished rs + fires_extinguished r')%nat.
Proof.
  revert i. induction rs as [|x xs IH]; intros [|j] H; simpl in *;
    try discriminate.
  - injection H as ->. lia.
  - specialize (IH _ H). lia.
Qed.
(** ** Rules for [wpe] *)

Lemma wpe_bind {A B : Type} E (c : Sim A) (k : A -> Sim B) Q w :
  wpe E (bind c k) Q w <-> wpe E c (fun a w' => wpe E (k a) Q w') w.
Proof.
  unfold wpe, bind. destruct (c w) as [[a w']|e]; tauto.
Qed.

Lemma wpe_mono {A : Type} (E E' : exn -> Prop) (c : Sim A)
    (Q Q' : A -> _ -> Prop) w :
  (forall a w', Q a w' -> Q' a w') -> (forall e, E e -> E' e) ->
  wpe E c Q w -> wpe E' c Q' w.
Proof.
  unfold wpe. destruct (c w) as [[a w']|e]; auto.
Qed.

Lemma wpe_conj {A : Type} (E E' : exn -> Prop) (c : Sim A)
    (Q Q' : A -> _ -> Prop) w :
  wpe E c Q w -> wpe E' c Q' w ->
  wpe (fun e => E e /\ E' e) c (fun a w' => Q a w' /\ Q' a w') w.
Proof.
  unfold wpe. destruct (c w) as [[a w']|e]; tauto.
Qed.

Lemma wp_conj {A : Type} (c : Sim A) (Q Q' : A -> _ -> Prop) w :
  wp c Q w -> wlp c Q' w -> wp c (fun a w' => Q a w' /\ Q' a w') w.
Proof.
  unfold wpe. destruct (c w) as [[a w']|e]; tauto.
Qed.

Lemma wp_Ok {A : Type} (c : Sim A) (Q : A -> _ -> Prop) w :
  wp c Q w <-> exists a w', c w = Ok (a, w') /\ Q a w'.
Proof.
  unfold wpe. destruct (c w) as [[a w']|e]; split.
  - eauto.
  - intros (a' & w'' & [= -> ->] & H). exact H.
  - tauto.
  - intros (a' & w'' & [=] & _).
Qed.

Lemma wlp_Ok {A : Type} (c : Sim A) (Q : A -> _ -> Prop) w a w' :
  wlp c Q w -> c w = Ok (a, w') -> Q a w'.
Proof.
  unfold wpe. intros H E. rewrite E in H. exact H.
Qed.

(** A loop whose invariant depends on the elements still to be visited. *)
Lemma wpe_for_each_rest {A : Type} E
    (I : list A -> RescueBotsSimulation -> Prop)
    (body : A -> Sim unit) :
  (forall x xs w, I (x :: xs) w -> wpe E (body x) (fun _ => I xs) w) ->
  forall l w, I l w -> wpe E (for_each l body) (fun _ => I []) w.
Proof.
  intros Hbody. induction l as [|x xs IH]; intros w Hw; simpl.
  - exact Hw.
  - apply wpe_bind.
    apply wpe_mono with (E := E) (Q := fun _ => I xs); auto.
Qed.

Lemma wpe_for_each {A : Type} E (I : RescueBotsSimulation -> Prop)
    (l : list A) (body : A -> Sim unit) :
  (forall x w, In x l -> I w -> wpe E (body x) (fun _ => I) w) ->
  forall w, I w -> wpe E (for_each l body) (fun _ => I) w.
Proof.
  induction l as [|x xs IH]; intros Hbody w Hw; simpl.
  - exact Hw.
  - apply wpe_bind. apply wpe_mono with (E := E) (Q := fun _ => I);
      [| |apply Hbody; simpl; auto]; auto.
    intros _ w' Hw'. apply IH; auto. intros; apply Hbody; simpl; auto.
Qed.

Lemma wpe_for_each_acc {A S : Type} E (I : RescueBotsSimulation -> Prop)
    (l : list A) (body : S -> A -> Sim S) :
  (forall acc x w, In x l -> I w -> wpe E (body acc x) (fun _ => I) w) ->
  forall acc w, I w -> wpe E (for_each_acc l body acc) (fun _ => I) w.
Proof.
  induction l as [|x xs IH]; intros Hbody acc w Hw; simpl.
  - exact Hw.
  - apply wpe_bind. apply wpe_mono with (E := E) (Q := fun _ => I);
      [| |apply Hbody; simpl; auto]; auto.
    intros acc' w' Hw'. apply IH; auto. intros; apply Hbody; simpl; auto.
Qed.

Lemma wpe_index {A : Type} E (l : list A) (i : nat) Q w :
  (forall a, nth_error l i = Some a -> Q a w) ->
  (nth_error l i = None -> E IndexError) ->
  wpe E (index l i) Q w.
Proof.
  unfold wpe, index. destruct (nth_error l i); simpl; auto.
Qed.

Lemma wpe_random E Q w :
  (forall u g, 0 <= u -> u < 1 -> Q u (set_rng g w)) -> wpe E random Q w.
Proof.
  intros H. unfold wpe.
  destruct (random_unit w) as (u & g & -> & H0 & H1). auto.
Qed.

Lemma wpe_uniform E a b Q w :
  (forall u g, 0 <= u -> u < 1 -> Q (a + (b - a) * u) (set_rng g w)) ->
  wpe E (uniform a b) Q w.
Proof.
  intros H. unfold uniform. apply wpe_bind, wpe_random.
  intros u g H0 H1. apply H; auto.
Qed.

Lemma wpe_gets {A : Type} E (f : RescueBotsSimulation -> A) Q w :
  Q (f w) w -> wpe E (gets f) Q w.
Proof. auto. Qed.

Lemma wpe_modify E f Q w : Q tt (f w) -> wpe E (modify f) Q w.
Proof. auto. Qed.

Lemma wpe_ret {A : Type} E (a : A) Q w : Q a w -> wpe E (ret a) Q w.
Proof. auto. Qed.

Lemma wpe_raise {A : Type} (E : exn -> Prop) e (Q : A -> _ -> Prop) w :
  E e -> wpe E (raise e) Q w.
Proof. auto. Qed.

Lemma wpe_py_div E a b Q w :
  (~ b == 0 -> Q (a / b) w) -> (b == 0 -> E ZeroDivisionError) ->
  wpe E (py_div a b) Q w.
Proof.
  unfold py_div. destruct (Qeqb b 0) eqn:H; qprop; intros H1 H2.
  - apply wpe_raise. auto.
  - apply wpe_ret. auto.
Qed.

(** Symbolic execution of a computation under [wpe]: one rule per
    construct; the exceptions a rule may raise become side goals, closed at
    once when every exception is allowed. *)
Ltac wpe_side := try (cbv beta; first [exact I | discriminate]).

Ltac wpe_step :=
  lazymatch goal with
  | |- wpe _ (bind _ _) _ _ => apply wpe_bind
  | |- wpe _ (gets _) _ _ => apply wpe_gets
  | |- wpe _ (modify _) _ _ => apply wpe_modify
  | |- wpe _ (ret _) _ _ => apply wpe_ret
  | |- wpe _ (raise _) _ _ => apply wpe_raise; wpe_side
  | |- wpe _ (store_robot _ _) _ _ => apply wpe_modify
  | |- wpe _ (store_building _ _) _ _ => apply wpe_modify
  | |- wpe _ (index _ _) _ _ => apply wpe_index; [intros ? ?|intros ?; wpe_side]
  | |- wpe _ (uniform _ _) _ _ => apply wpe_uniform; intros ? ? ? ?
  | |- wpe _ random _ _ => apply wpe_random; intros ? ? ? ?
  | |- wpe _ (py_div _ _) _ _ =>
      apply wpe_py_div; [intros ?|intros ?; wpe_side]
  | |- wpe _ (if ?b then _ else _) _ _ => destruct b eqn:?
  | |- wpe _ (match ?o with Some _ => _ | None => _ end) _ _ =>
      destruct o eqn:?
  | |- wpe ?E (let x := ?v in @?c x) ?Q ?w =>
      change (let x := v in wpe E (c x) Q w); intro
  end.

Ltac wpe_run := repeat (wpe_step; cbv beta).

Ltac bprop :=
  repeat match goal with
    | H : _ && _ = true |- _ => apply andb_prop in H; destruct H
    | H : _ || _ = false |- _ => apply orb_false_elim in H; destruct H
    | H : negb _ = true |- _ => apply negb_true_iff in H
    | H : negb _ = false |- _ => apply negb_false_iff in H
    end;
  qprop.

Ltac destruct_if :=
  match goal with
  | |- context [if ?b then _ else _] => destruct b eqn:?
  end.

Ltac subst_locals :=
  repeat match goal with x := _ |- _ => subst x end.

(** The fields of a world written by a sequence of updates. *)
Ltac sim_fields :=
  cbn [city_size num_robots num_buildings num_fires num_stations
       dt time rng robots buildings fires water_stations
       total_fires_started total_fires_extinguished
       total_buildings_destroyed response_times
       set_robots set_buildings set_fires set_response_times
       set_total_fires_extinguished set_rng set_time
       set_total_buildings_destroyed set_total_fires_started
       set_water_stations] in *.

Ltac wf_fields := constructor; sim_fields; rewrite ?length_set_nth.

Lemma Forall_filter {A : Type} (P : A -> Prop) (p : A -> bool) (l : list A) :
  Forall P l -> Forall P (filter p l).
Proof.
  rewrite !Forall_forall. intros H x Hx. apply filter_In in Hx. apply H, Hx.
Qed.

Lemma sum_extinguished_same i r r' rs :
  nth_error rs i = Some r ->
  fires_extinguished r' = fires_extinguished r ->
  sum_extinguished (set_nth i r' rs) = sum_extinguished rs.
Proof.
  intros H E. pose proof (sum_extinguished_set_nth i r r' rs H). lia.
Qed.

Lemma sum_extinguished_succ i r r' rs :
  nth_error rs i = Some r ->
  fires_extinguished r' = S (fires_extinguished r) ->
  sum_extinguished (set_nth i r' rs) = S (sum_extinguished rs).
Proof.
  intros H E. pose proof (sum_extinguished_set_nth i r r' rs H). lia.
Qed.

Lemma refill_bounds (w m rate : Q) :
  0 <= w -> w <= m -> 0 <= rate ->
  0 <= w + py_min (rate * 0.1) (m - w) <= m.
Proof.
  intros. pose proof (py_min_le_r (rate * 0.1) (m - w)).
  assert (0 <= py_min (rate * 0.1) (m - w)) by (apply py_min_glb; lra).
  lra.
Qed.

Lemma extinguish_bounds (w m rate fi : Q) :
  0 < w -> w <= m -> 0 <= rate -> 0 <= fi ->
  0 <= w - py_min3 (rate * 0.1) fi w <= m
  /\ 0 <= fi - py_min3 (rate * 0.1) fi w.
Proof.
  intros. pose proof (py_min3_le_2 (rate * 0.1) fi w).
  pose proof (py_min3_le_3 (rate * 0.1) fi w).
  assert (0 <= py_min3 (rate * 0.1) fi w) by (apply py_min3_glb; lra).
  lra.
Qed.

(** ** Well-formedness is preserved *)

Section Invariants.

Variable sqrt : Q -> Q.

(** Facts about the entries read by the computation, taken from the
    invariant. *)
Ltac wf_entries Hrobots Hbuildings Hstations :=
  repeat match goal with
    | Hr : nth_error (robots _) _ = Some ?a |- _ =>
        lazymatch goal with
        | _ : robot_ok a |- _ => fail
        | _ => pose proof (Forall_nth_error _ _ _ _ Hrobots Hr)
        end
    | Hs : nth_error (water_stations _) _ = Some ?s |- _ =>
        lazymatch goal with
        | _ : station_ok s |- _ => fail
        | _ => pose proof (Forall_nth_error _ _ _ _ Hstations Hs)
        end
    | Hb : nth_error (buildings _) _ = Some ?b |- _ =>
        lazymatch goal with
        | _ : building_ok b |- _ => fail
        | _ => pose proof (Forall_nth_error _ _ _ _ Hbuildings Hb)
        end
    end.

Lemma update_robot_WF i w :
  WF w -> wlp (update_robot sqrt i) (fun _ => WF) w.
Proof.
  intros Hw. cbv delta [update_robot track_distance move_towards]; cbv beta.
  wpe_run.
  all: destruct Hw as [Hdt Hrobots Hbuildings Hfires Hstations Hext Hresp];
       wf_fields; auto using Forall_filter.
  all: wf_entries Hrobots Hbuildings Hstations.
  all: try match goal with
       | |- Forall robot_ok (set_nth _ _ _) => apply Forall_set_nth; auto
       | |- Forall building_ok (set_nth _ _ _) => apply Forall_set_nth; auto
       end.
  all: subst_locals.
  all: try match goal with
       | Hr : nth_error (robots _) _ = Some ?a
         |- S _ = sum_extinguished (set_nth _ _ _) =>
           rewrite (sum_extinguished_succ _ _ _ _ Hr);
           [congruence | repeat destruct_if; reflexivity]
       | Hr : nth_error (robots _) _ = Some ?a
         |- _ = sum_extinguished (set_nth _ _ _) =>
           rewrite (sum_extinguished_same _ _ _ _ Hr);
           [assumption | repeat destruct_if; reflexivity]
       end.
  all: try (rewrite length_app; simpl; lia).
  all: rewrite ?Hdt; repeat destruct_if;
       unfold robot_ok, building_ok, station_ok in *; simpl; bprop.
  all: match goal with
       | Hr : nth_error (robots _) _ = Some ?a |- _ =>
           try match goal with
             | |- context [py_min (?r * 0.1) (?m - ?x)] =>
                 pose proof (refill_bounds x m r)
             | |- context [py_min3 (?r * 0.1) ?fi ?x] =>
                 pose proof (extinguish_bounds x (max_water_capacity a) r fi)
             end
       end.
  all: intuition (auto; lra).
Qed.

Lemma start_fire_WF bid w :
  WF w -> wlp (_start_fire sqrt bid) (fun _ => WF) w.
Proof.
  intros Hw. cbv delta [_start_fire _calculate_fire_priority]; cbv beta.
  wpe_run.
  all: destruct Hw as [Hdt Hrobots Hbuildings Hfires Hstations Hext Hresp];
       wf_fields; auto.
  - apply Forall_set_nth; auto. unfold building_ok. simpl. lra.
  - apply Forall_app. split; auto. repeat constructor; simpl; try lra.
    eapply nth_error_lt; eauto.
Qed.

Lemma try_spread_fire_WF source new_fires w :
  WF w -> wlp (_try_spread_fire sqrt source new_fires) (fun _ => WF) w.
Proof.
  intros Hw. cbv delta [_try_spread_fire]; cbv beta.
  wpe_run.
  all: try match goal with
         | |- wpe _ (let (_, _) := ?p in _) _ _ => destruct p
         end.
  all: wpe_run.
  all: destruct Hw; wf_fields; auto.
Qed.

Lemma growth_positive (fi sr : Q) :
  0 <= fi -> 0 < sr -> 0 < py_min (fi + sr * 0.1 * 0.7) 200.
Proof. intros. apply py_min_glb_lt; lra. Qed.

Lemma update_fire_WF new_fires k w :
  WF w -> wlp (update_fire sqrt new_fires k) (fun _ => WF) w.
Proof.
  intros Hw. cbv delta [update_fire]; cbv beta.
  wpe_run.
  all: try (apply wpe_mono with (E := fun _ => True) (Q := fun _ => WF);
            [auto|auto|apply try_spread_fire_WF]).
  all: try assumption.
  all: destruct Hw as [Hdt Hrobots Hbuildings Hfires Hstations Hext Hresp];
       wf_fields; auto.
  all: wf_entries Hrobots Hbuildings Hstations.
  all: match goal with
       | Hf : nth_error (fires _) _ = Some ?f |- _ =>
           pose proof (Forall_nth_error _ _ _ _ Hfires Hf) as (Hi & Hs & Hb)
       end.
  all: subst_locals; rewrite ?Hdt; unfold building_ok in *; simpl.
  all: try match goal with
       | |- Forall _ (set_nth _ _ _) =>
           repeat (apply Forall_set_nth; auto)
       end.
  all: unfold fire_ok, building_ok; simpl;
       try match goal with
         | |- context [py_min (?fi + ?sr * 0.1 * 0.7) 200] =>
             pose proof (growth_positive fi sr)
         end;
       intuition (auto; lra).
Qed.

Lemma ignite_WF bid w :
  WF w -> wlp (ignite sqrt bid) (fun _ => WF) w.
Proof.
  intros Hw. cbv delta [ignite]; cbv beta.
  wpe_run; auto.
  apply wpe_mono with (E := fun _ => True) (Q := fun _ => WF);
    [|auto|apply start_fire_WF; auto].
  intros _ w' Hw'. wpe_run. destruct Hw'; wf_fields; auto.
Qed.

Lemma update_fires_WF w :
  WF w -> wlp (update_fires sqrt) (fun _ => WF) w.
Proof.
  intros Hw. cbv delta [update_fires]; cbv beta.
  wpe_run.
  apply wpe_mono with (E := fun _ => True) (Q := fun _ => WF); auto.
  - intros new_fires w' Hw'. apply wpe_for_each; auto.
    intros; apply ignite_WF; auto.
  - apply wpe_for_each_acc; auto. intros; apply update_fire_WF; auto.
Qed.

Lemma update_robots_WF w :
  WF w -> wlp (update_robots sqrt) (fun _ => WF) w.
Proof.
  intros Hw. cbv delta [update_robots]; cbv beta.
  wpe_run. apply wpe_for_each; auto.
  intros; apply update_robot_WF; auto.
Qed.

(** *** The assignment pass *)

Lemma indices_where_In {A : Type} (p : A -> bool) (l : list A) (s i : nat) :
  In i (indices_where p s l) <->
  (s <= i)%nat /\ exists a, nth_error l (i - s) = Some a /\ p a = true.
Proof.
  revert s. induction l as [|x xs IH]; intros s; simpl.
  - split; [tauto|]. intros (_ & a & H & _).
    destruct (i - s)%nat; discriminate.
  - assert (Hxs : In i (indices_where p (S s) xs) <->
                  (s < i)%nat /\
                  exists a, nth_error (x :: xs) (i - s) = Some a
                            /\ p a = true).
    { rewrite IH. split; intros (Hlt & a & Ha & Hp); split; try lia;
        exists a; split; auto.
      - replace (i - s)%nat with (S (i - S s)) by lia. exact Ha.
      - replace (i - s)%nat with (S (i - S s)) in Ha by lia. exact Ha. }
    destruct (p x) eqn:Hpx; simpl; rewrite Hxs; split.
    + intros [<-|(Hlt & a & Ha & Hp)].
      * split; [lia|]. exists x. rewrite Nat.sub_diag. auto.
      * split; [lia|]. eauto.
    + intros (Hle & a & Ha & Hp).
      destruct (Nat.eq_dec s i) as [->|Hne]; [auto|right].
      split; [lia|]. eauto.
    + intros (Hlt & a & Ha & Hp). split; [lia|]. eauto.
    + intros (Hle & a & Ha & Hp).
      destruct (Nat.eq_dec s i) as [->|Hne].
      * rewrite Nat.sub_diag in Ha. simpl in Ha. congruence.
      * split; [lia|]. eauto.
Qed.

Lemma indices_where_NoDup {A : Type} (p : A -> bool) (l : list A) (s : nat) :
  NoDup (indices_where p s l).
Proof.
  revert s. induction l as [|x xs IH]; intros s; simpl.
  - constructor.
  - destruct (p x); auto. constructor; auto.
    rewrite indices_where_In. lia.
Qed.

Lemma set_nth_same {A : Type} (i : nat) (a : A) (l : list A) :
  nth_error l i = Some a -> set_nth i a l = l.
Proof.
  revert i. induction l as [|x xs IH]; intros [|j] H; simpl in *;
    try discriminate.
  - congruence.
  - f_equal. auto.
Qed.

Lemma set_robots_same w : set_robots (robots w) w = w.
Proof. destruct w; reflexivity. Qed.

Lemma set_robots_frame l l' w w' :
  w' = set_robots l' w -> set_robots l w' = set_robots l w.
Proof. intros ->. reflexivity. Qed.

Lemma Forall2_pointwise {A B : Type} (P : A -> B -> Prop) (l : list A)
    (l' : list B) :
  length l' = length l ->
  (forall i a, nth_error l i = Some a ->
     exists b, nth_error l' i = Some b /\ P a b) ->
  Forall2 P l l'.
Proof.
  revert l'. induction l as [|x xs IH]; intros [|y ys] Hlen H;
    simpl in *; try discriminate; constructor.
  - destruct (H O x eq_refl) as (b & [= <-] & Hb). exact Hb.
  - apply IH; [lia|]. intros i a Ha. apply (H (S i) a Ha).
Qed.

Lemma Forall2_refine {A B : Type} (P : A -> Prop) (R R' : A -> B -> Prop)
    (l : list A) (l' : list B) :
  (forall a b, P a -> R a b -> R' a b) ->
  Forall P l -> Forall2 R l l' -> Forall2 R' l l'.
Proof.
  intros H Hl H2. induction H2; inversion Hl; subst; constructor; auto.
Qed.

Lemma Forall2_right {A B : Type} (Q : B -> Prop) (R : A -> B -> Prop)
    (l : list A) (l' : list B) :
  (forall a b, R a b -> Q b) -> Forall2 R l l' -> Forall Q l'.
Proof.
  intros H H2. induction H2; constructor; eauto.
Qed.

(** [fires_needing_help] reads the world and leaves it as it is. *)
Lemma fires_needing_help_reads E bs fs
    (Q : list (Fire * Building) -> RescueBotsSimulation -> Prop) w :
  (forall l, Q l w) -> E IndexError ->
  wpe E (fires_needing_help bs fs) Q w.
Proof.
  intros HQ HE. revert Q HQ.
  induction fs as [|f fs IH]; intros Q HQ; simpl.
  - apply wpe_ret, HQ.
  - destruct (Qltb 0 (intensity f)); [|apply IH, HQ].
    wpe_run; auto. apply IH. intros l. wpe_run. apply HQ.
Qed.

Lemma assign_robot_retargets i w r :
  nth_error (robots w) i = Some r ->
  wlp (assign_robot sqrt i)
      (fun _ w' =>
         exists r', retargeted r r'
                    /\ w' = set_robots (set_nth i r' (robots w)) w)
      w.
Proof.
  intros Hr. cbv delta [assign_robot]; cbv beta.
  assert (Hsame : w = set_robots (set_nth i r (robots w)) w)
    by (rewrite (set_nth_same _ _ _ Hr), set_robots_same; reflexivity).
  wpe_run.
  all: try match goal with
         | H : nth_error (robots _) _ = Some ?a |- _ =>
             assert (a = r) by congruence; subst a
         end.
  - eexists. split; [|reflexivity]. right. left. eauto.
  - apply fires_needing_help_reads; [|exact I]. intros l. wpe_run.
    + eexists. split; [|reflexivity]. right. right. eauto.
    + exists r. split; [left; reflexivity|exact Hsame].
  - exists r. split; [left; reflexivity|exact Hsame].
Qed.

(** The pass visits each untargeted robot once; [R] relates such a robot
    before and after its visit. *)
Lemma assign_targets_pass E (R : Robot -> Robot -> Prop) w :
  (forall i w' r,
      w' = set_robots (robots w') w ->
      nth_error (robots w') i = Some r ->
      untargeted r = true ->
      wpe E (assign_robot sqrt i)
          (fun _ w'' =>
             exists r', R r r'
                        /\ w'' = set_robots (set_nth i r' (robots w')) w')
          w') ->
  wpe E (assign_targets sqrt)
      (fun _ w' =>
         w' = set_robots (robots w') w
         /\ Forall2 (fun r r' => (untargeted r = true -> R r r')
                                 /\ (untargeted r = false -> r' = r))
                    (robots w) (robots w'))
      w.
Proof.
  intros Hbody. cbv delta [assign_targets]; cbv beta. wpe_run.
  set (I := fun (xs : list nat) (w' : RescueBotsSimulation) =>
              w' = set_robots (robots w') w
              /\ length (robots w') = length (robots w)
              /\ NoDup xs
              /\ (forall i, In i xs -> (i < length (robots w))%nat)
              /\ forall i r, nth_error (robots w) i = Some r ->
                   exists r', nth_error (robots w') i = Some r'
                     /\ (In i xs -> r' = r /\ untargeted r = true)
                     /\ (untargeted r = false -> r' = r)
                     /\ (~ In i xs -> untargeted r = true -> R r r')).
  apply wpe_mono with (E := E) (Q := fun _ => I []); auto.
  - intros _ w' (Hframe & Hlen & _ & _ & Hpt). split; auto.
    apply Forall2_pointwise; auto.
    intros i r Hr. destruct (Hpt i r Hr) as (r' & Hr' & _ & Hf & Ht).
    exists r'. split; auto.
  - apply wpe_for_each_rest.
    + intros x xs w' (Hframe & Hlen & Hnd & Hran & Hpt).
      inversion Hnd as [|? ? Hx Hxs]; subst.
      destruct (nth_error (robots w) x) as [r|] eqn:Hr.
      * destruct (Hpt x r Hr) as (r' & Hr' & Hin & _).
        destruct (Hin (or_introl eq_refl)) as [-> Hun].
        eapply wpe_mono; [| |apply (Hbody x w' r Hframe Hr' Hun)]; auto.
        cbv beta. intros _ w'' (r2 & HR & ->). unfold I. sim_fields.
        split; [eapply set_robots_frame; eassumption|].
        split; [rewrite length_set_nth; exact Hlen|].
        split; [exact Hxs|].
        split; [intros; apply Hran; simpl; auto|].
        intros i r0 Hr0.
        destruct (Nat.eq_dec x i) as [<-|Hne].
        -- exists r2. rewrite nth_error_set_nth_eq
             by (rewrite Hlen; eapply nth_error_lt; eauto).
           assert (r0 = r) by congruence. subst r0.
           repeat split; auto; try tauto. congruence.
        -- rewrite nth_error_set_nth_neq by auto.
           destruct (Hpt i r0 Hr0) as (r' & Hr0' & Hin' & Hf & Ht).
           exists r'. repeat split; auto.
           ++ apply Hin'. simpl. auto.
           ++ apply Hin'. simpl. auto.
           ++ intros Hni. apply Ht. simpl. tauto.
      * apply nth_error_None in Hr. specialize (Hran x (or_introl eq_refl)).
        lia.
    + unfold I. split; [symmetry; apply set_robots_same|].
      split; [reflexivity|]. split; [apply indices_where_NoDup|].
      split.
      * intros i Hi. apply indices_where_In in Hi.
        destruct Hi as (_ & a & Ha & _). rewrite Nat.sub_0_r in Ha.
        eapply nth_error_lt; eauto.
      * intros i r Hr. exists r. repeat split; auto.
        -- apply indices_where_In in H.
           destruct H as (_ & a & Ha & Hp). rewrite Nat.sub_0_r in Ha.
           congruence.
        -- intros Hni Hun. exfalso. apply Hni.
           apply indices_where_In. split; [lia|]. exists r.
           rewrite Nat.sub_0_r. auto.
Qed.

Lemma retargeted_ok r r' :
  robot_ok r -> untargeted r = true -> retargeted r r' ->
  robot_ok r' /\ fires_extinguished r' = fires_extinguished r.
Proof.
  unfold robot_ok, untargeted. intros (H0 & H1 & H2 & H3) Hun Hre.
  apply andb_prop in Hun. destruct Hun as [Hb Hs].
  destruct (target_building r) eqn:Eb; [discriminate|].
  destruct (target_station r) eqn:Es; [discriminate|].
  destruct Hre as [->|[[s ->]|[b ->]]]; simpl; rewrite ?Eb, ?Es; auto 10.
Qed.

Lemma sum_extinguished_Forall2 rs rs' :
  Forall2 (fun r r' => fires_extinguished r' = fires_extinguished r) rs rs' ->
  sum_extinguished rs' = sum_extinguished rs.
Proof. induction 1; simpl; congruence. Qed.

Lemma assign_targets_WF w :
  WF w -> wlp (assign_targets sqrt) (fun _ => WF) w.
Proof.
  intros Hw.
  eapply wpe_mono;
    [| |apply assign_targets_pass with (R := retargeted)]; auto.
  - cbv beta. intros _ w' (-> & Hpt).
    destruct Hw as [Hdt Hrobots Hbuildings Hfires Hstations Hext Hresp].
    assert (Hboth : Forall2 (fun r r' =>
                               robot_ok r'
                               /\ fires_extinguished r' = fires_extinguished r)
                            (robots w) (robots w')).
    { eapply Forall2_refine; [|exact Hrobots|exact Hpt].
      cbv beta. intros r r' Hok [Ht Hf].
      destruct (untargeted r) eqn:Hun.
      - apply retargeted_ok; auto.
      - rewrite (Hf eq_refl). auto. }
    wf_fields; auto.
    + eapply Forall2_right; [|exact Hboth]. cbv beta. tauto.
    + rewrite Hext. symmetry. apply sum_extinguished_Forall2.
      eapply Forall2_refine with (P := fun _ => True);
        [|apply Forall_forall; auto|exact Hboth].
      cbv beta. tauto.
  - intros i w' r Hframe Hr Hun.
    apply assign_robot_retargets. exact Hr.
Qed.

Lemma step_WF w : WF w -> wlp (step sqrt) (fun _ => WF) w.
Proof.
  intros Hw. cbv delta [step]; cbv beta.
  apply wpe_bind.
  eapply wpe_mono; [| |apply assign_targets_WF; exact Hw]; auto.
  cbv beta. intros _ w1 Hw1. apply wpe_bind.
  eapply wpe_mono; [| |apply update_robots_WF; exact Hw1]; auto.
  cbv beta. intros _ w2 Hw2. apply wpe_bind.
  eapply wpe_mono; [| |apply update_fires_WF; exact Hw2]; auto.
  cbv beta. intros _ w3 Hw3. wpe_run. destruct Hw3; wf_fields; auto.
Qed.

Lemma tick_WF w w' : WF w -> tick sqrt w = Ok w' -> WF w'.
Proof.
  intros Hw. unfold tick. pose proof (step_WF w Hw) as H. unfold wpe in H.
  destruct (step sqrt w) as [[[] w1]|e]; [|discriminate].
  intros [= <-]. exact H.
Qed.

(** *** Initialization *)

Lemma sum_extinguished_app rs rs' :
  sum_extinguished (rs ++ rs')
  = (sum_extinguished rs + sum_extinguished rs')%nat.
Proof. induction rs; simpl; lia. Qed.

Lemma wpe_randbelow E n Q w :
  (forall j g, ((0 < n)%nat -> (j < n)%nat) -> Q j (set_rng g w)) ->
  wpe E (randbelow n) Q w.
Proof.
  intros H. unfold wpe, randbelow. apply H. intros Hn.
  pose proof (Z.mod_pos_bound (entropy (rng w) (cursor (rng w)))
                (Z.of_nat n) ltac:(lia)).
  lia.
Qed.

Lemma remove_nth_split {A : Type} (d : A) (j : nat) (l : list A) :
  (j < length l)%nat ->
  l = firstn j l ++ nth j l d :: skipn (S j) l.
Proof.
  revert j. induction l as [|x xs IH]; intros [|j] H; simpl in *;
    try lia; auto.
  f_equal. apply IH. lia.
Qed.

Lemma sample_loop_spec E k pool w :
  NoDup pool -> (k <= length pool)%nat ->
  wpe E (sample_loop k pool)
      (fun l w' =>
         (exists g, w' = set_rng g w)
         /\ length l = k /\ NoDup l /\ incl l pool)
      w.
Proof.
  revert pool w. induction k as [|k IH]; intros pool w Hnd Hk;
    cbn [sample_loop].
  - apply wpe_ret. repeat split; try constructor.
    + exists (rng w). destruct w; reflexivity.
    + intros x [].
  - apply wpe_bind, wpe_randbelow. intros j g Hj.
    specialize (Hj ltac:(lia)).
    pose proof (remove_nth_split O j pool Hj) as Hsplit.
    rewrite Hsplit in Hnd.
    pose proof (NoDup_remove_1 _ _ _ Hnd) as Hnd'.
    pose proof (NoDup_remove_2 _ _ _ Hnd) as Hni.
    apply wpe_bind.
    eapply wpe_mono; [| |apply (IH _ (set_rng g w)); [exact Hnd'|]]; auto.
    + cbv beta. intros l w' ((g' & ->) & Hlen & Hl & Hincl).
      apply wpe_ret. repeat split.
      * exists g'. reflexivity.
      * simpl. lia.
      * constructor; auto.
      * intros x [<-|Hx].
        -- apply nth_In. exact Hj.
        -- rewrite Hsplit. apply Hincl in Hx.
           apply in_app_or in Hx. apply in_or_app. simpl. tauto.
    + apply (f_equal (@length nat)) in Hsplit.
      rewrite length_app in Hsplit. cbn [length] in Hsplit.
      rewrite length_app. lia.
Qed.

Lemma sample_range_spec E n k w :
  ((n < k)%nat -> E ValueError) ->
  wpe E (sample_range n k)
      (fun l w' =>
         (exists g, w' = set_rng g w)
         /\ length l = k /\ NoDup l /\ Forall (fun i => (i < n)%nat) l)
      w.
Proof.
  intros HE. unfold sample_range.
  destruct (k <=? n)%nat eqn:Hk.
  - apply Nat.leb_le in Hk.
    eapply wpe_mono; [| |apply (sample_loop_spec E)]; auto.
    + cbv beta. intros l w' (Hg & Hlen & Hnd & Hincl). repeat split; auto.
      apply Forall_forall. intros x Hx. apply Hincl, in_seq in Hx. lia.
    + apply seq_NoDup.
    + rewrite length_seq. exact Hk.
  - apply Nat.leb_gt in Hk. apply wpe_raise. auto.
Qed.

Lemma WF_set_rng g w : WF w -> WF (set_rng g w).
Proof. intros []; wf_fields; auto. Qed.

Lemma create_building_WF i w :
  WF w -> wlp (_create_building i) (fun _ => WF) w.
Proof.
  intros Hw. cbv delta [_create_building]; cbv beta. wpe_run.
  destruct Hw as [Hdt Hrobots Hbuildings Hfires Hstations Hext Hresp].
  wf_fields; auto.
  - apply Forall_app. split; auto. repeat constructor.
    unfold building_ok. simpl. lra.
  - rewrite length_app. eapply Forall_impl; [|exact Hfires].
    unfold fire_ok. intros f (? & ? & ?). repeat split; auto. lia.
Qed.

Lemma create_station_WF grid_size i w :
  WF w -> wlp (_create_station grid_size i) (fun _ => WF) w.
Proof.
  intros Hw. cbv delta [_create_station]; cbv beta. wpe_run.
  destruct Hw as [Hdt Hrobots Hbuildings Hfires Hstations Hext Hresp].
  wf_fields; auto.
  apply Forall_app. split; auto. repeat constructor.
  unfold station_ok. simpl. lra.
Qed.

Lemma create_robot_WF i w :
  WF w -> wlp (_create_robot i) (fun _ => WF) w.
Proof.
  intros Hw. cbv delta [_create_robot]; cbv beta. wpe_run.
  all: destruct Hw as [Hdt Hrobots Hbuildings Hfires Hstations Hext Hresp];
       wf_fields; auto.
  all: try (rewrite sum_extinguished_app; simpl; lia).
  all: apply Forall_app; split; auto; repeat constructor; subst_locals;
       simpl; repeat destruct_if; simpl; auto; lra.
Qed.

Lemma initialize_city_WF w :
  WF w -> wlp (_initialize_city sqrt) (fun _ => WF) w.
Proof.
  intros Hw. cbv delta [_initialize_city]; cbv beta.
  wpe_step; cbv beta. wpe_step; cbv beta. wpe_step; cbv beta.
  apply wpe_mono with (E := fun _ => True) (Q := fun _ => WF); auto;
    [|apply wpe_for_each; auto; intros; apply create_building_WF; auto].
  intros _ w1 Hw1. wpe_step; cbv beta. wpe_step; cbv beta.
  wpe_step; cbv beta. wpe_step; cbv beta.
  apply wpe_mono with (E := fun _ => True) (Q := fun _ => WF); auto;
    [|apply wpe_for_each; auto; intros; apply create_station_WF; auto].
  intros _ w2 Hw2. wpe_step; cbv beta. wpe_step; cbv beta.
  wpe_step; cbv beta.
  apply wpe_mono with (E := fun _ => True) (Q := fun _ => WF); auto;
    [|apply wpe_for_each; auto; intros; apply create_robot_WF; auto].
  intros _ w3 Hw3. wpe_step; cbv beta. wpe_step; cbv beta.
  wpe_step; cbv beta.
  eapply wpe_mono; [| |apply (sample_range_spec (fun _ => True))]; auto.
  cbv beta. intros l w4 ((g & ->) & _). wpe_step; cbv beta.
  apply wpe_mono with (E := fun _ => True) (Q := fun _ => WF); auto.
  - intros _ w5 Hw5. wpe_run. destruct Hw5; wf_fields; auto.
  - apply wpe_for_each; auto using WF_set_rng.
    intros; apply start_fire_WF; auto.
Qed.

Lemma init_WF cs nr nb nf ns seed w :
  __init__ sqrt cs nr nb nf ns seed = Ok w -> WF w.
Proof.
  unfold __init__.
  match goal with |- context [_initialize_city sqrt ?w0] =>
    assert (H0 : WF w0) by (wf_fields; auto; reflexivity);
    pose proof (initialize_city_WF w0 H0) as H; unfold wpe in H;
    destruct (_initialize_city sqrt w0) as [[[] w1]|e]
  end; [|discriminate].
  intros [= <-]. exact H.
Qed.

(** Every world the program can be in is well formed. *)
Lemma reachable_WF w : reachable sqrt w -> WF w.
Proof.
  induction 1 as [cs nr nb nf ns seed w H|w w' _ IH H].
  - eapply init_WF; eauto.
  - eapply tick_WF; eauto.
Qed.

End Invariants.
(** ** Invariants of the reachable worlds *)

Lemma example_world_reachable : reachable sqrt_floor example_world.
Proof.
  apply reachable_init with (cs := 200) (nr := 2%nat) (nb := 3%nat)
                            (nf := 2%nat) (ns := 1%nat) (seed := example_seed).
  vm_compute. reflexivity.
Defined.

Lemma example_robot_In : In example_robot (robots example_world).
Proof. vm_compute. left. reflexivity. Defined.

(** C4 (water bounds). In every world the program can be in, the water of
    every robot is between zero and the robot's maximum: refilling never
    exceeds [max_water_capacity] and extinguishing never goes below zero. *)
Theorem water_bounds (sqrt : Q -> Q) (w : RescueBotsSimulation) (r : Robot) :
  reachable sqrt w -> In r (robots w) ->
  0 <= water_capacity r /\ water_capacity r <= max_water_capacity r.
Proof.
  intros Hreach Hr. apply reachable_WF in Hreach.
  destruct Hreach as [_ Hrobots _ _ _ _ _].
  rewrite Forall_forall in Hrobots.
  destruct (Hrobots r Hr) as (H0 & H1 & _). auto.
Qed.

Lemma water_bounds_witness :
  0 <= water_capacity example_robot
  /\ water_capacity example_robot <= max_water_capacity example_robot.
Proof.
  apply (water_bounds sqrt_floor example_world example_robot).
  - exact example_world_reachable.
  - exact example_robot_In.
Defined.

(** C5 (exclusive targeting). In every world the program can be in, no
    robot has both [target_building] and [target_station] set: the
    constructor leaves both unset, and assignment, movement and action, and
    fire evolution keep at most one of them set. *)
Theorem exclusive_targeting (sqrt : Q -> Q) (w : RescueBotsSimulation)
    (r : Robot) :
  reachable sqrt w -> In r (robots w) ->
  ~ (target_building r <> None /\ target_station r <> None).
Proof.
  intros Hreach Hr. apply reachable_WF in Hreach.
  destruct Hreach as [_ Hrobots _ _ _ _ _].
  rewrite Forall_forall in Hrobots.
  destruct (Hrobots r Hr) as (_ & _ & _ & [H|H]); tauto.
Qed.

Lemma exclusive_targeting_witness :
  ~ (target_building example_robot <> None
     /\ target_station example_robot <> None).
Proof.
  apply (exclusive_targeting sqrt_floor example_world example_robot).
  - exact example_world_reachable.
  - exact example_robot_In.
Defined.

(** C10 (extinguished counters). In every world the program can be in, the
    world's [total_fires_extinguished] is the sum of the robots'
    [fires_extinguished] and the number of recorded response times: the
    three are incremented in the same branch and nowhere else. *)
Theorem extinguished_counters (sqrt : Q -> Q) (w : RescueBotsSimulation) :
  reachable sqrt w ->
  total_fires_extinguished w = sum_extinguished (robots w)
  /\ total_fires_extinguished w = length (response_times w).
Proof.
  intros Hreach. apply reachable_WF in Hreach.
  destruct Hreach. auto.
Qed.

Lemma extinguished_counters_witness :
  total_fires_extinguished example_world
  = sum_extinguished (robots example_world)
  /\ total_fires_extinguished example_world
     = length (response_times example_world).
Proof.
  apply (extinguished_counters sqrt_floor example_world).
  exact example_world_reachable.
Defined.

(** ** Division by the distance *)

Section Division.

Variable sqrt : Q -> Q.

Lemma update_robot_no_zero_division i w :
  wpe (fun e => e <> ZeroDivisionError) (update_robot sqrt i)
      (fun _ _ => True) w.
Proof.
  cbv delta [update_robot track_distance move_towards]; cbv beta.
  wpe_run.
  all: try exact I.
  all: exfalso; bprop; lra.
Qed.

Lemma update_robot_arrived i w r tx ty :
  nth_error (robots w) i = Some r ->
  target_position w r = Some (tx, ty) ->
  distance sqrt (r_x r) (r_y r) tx ty == 0 ->
  wp (update_robot sqrt i)
     (fun _ w' =>
        exists r', nth_error (robots w') i = Some r'
                   /\ r_x r' = r_x r /\ r_y r' = r_y r)
     w.
Proof.
  intros Hr Htp Hd. pose proof (nth_error_lt _ _ _ Hr) as Hi.
  unfold target_position in Htp.
  cbv delta [update_robot track_distance move_towards]; cbv beta.
  wpe_run.
  all: try match goal with
         | H : nth_error (robots _) _ = Some ?a |- _ =>
             assert (a = r) by congruence; subst a
         end.
  all: repeat match goal with
         | H : ?x = _, H' : context [match ?x with _ => _ end] |- _ =>
             rewrite H in H'
         end.
  all: try congruence.
  all: try (injection Htp as <- <-).
  all: try (exfalso; subst_locals; bprop; lra).
  all: sim_fields; rewrite nth_error_set_nth_eq by exact Hi;
       eexists; split; [reflexivity|]; subst_locals;
       repeat destruct_if; split; reflexivity.
Qed.

End Division.

(** C9 (no division by zero). The movement and action pass never raises
    [ZeroDivisionError]: the direction is normalized only on the branch
    where the distance is at least the arrival radius.  A robot whose
    distance to its target is zero is within the radius: its visit returns
    and leaves its position as it was. *)
Theorem no_division_by_zero (sqrt : Q -> Q) (w : RescueBotsSimulation) :
  update_robots sqrt w <> Raise ZeroDivisionError
  /\ forall i r tx ty,
       nth_error (robots w) i = Some r ->
       target_position w r = Some (tx, ty) ->
       distance sqrt (r_x r) (r_y r) tx ty == 0 ->
       exists w' r',
         update_robot sqrt i w = Ok (tt, w')
         /\ nth_error (robots w') i = Some r'
         /\ r_x r' = r_x r /\ r_y r' = r_y r.
Proof.
  split.
  - assert (H : wpe (fun e => e <> ZeroDivisionError) (update_robots sqrt)
                    (fun _ _ => True) w).
    { cbv delta [update_robots]; cbv beta. wpe_run.
      apply wpe_for_each with (I := fun _ => True); auto.
      intros; apply update_robot_no_zero_division. }
    unfold wpe in H. destruct (update_robots sqrt w) as [[? ?]|e];
      congruence.
  - intros i r tx ty Hr Htp Hd.
    pose proof (update_robot_arrived sqrt i w r tx ty Hr Htp Hd) as H.
    apply wp_Ok in H. destruct H as ([] & w' & Hrun & r' & H1 & H2 & H3).
    eauto 10.
Qed.

(** ** Initialization *)

Section Initialization.

Variable sqrt : Q -> Q.

Lemma burning_set_nth bs x b b' :
  nth_error bs x = Some b -> on_fire b = false -> on_fire b' = true ->
  length (filter on_fire (set_nth x b' bs))
  = S (length (filter on_fire bs)).
Proof.
  revert x. induction bs as [|y ys IH]; intros [|x] Hx Hb Hb'; simpl in *;
    try discriminate.
  - injection Hx as ->. rewrite Hb, Hb'. reflexivity.
  - destruct (on_fire y); simpl; rewrite (IH x); auto.
Qed.

Lemma filter_none {A : Type} (p : A -> bool) (l : list A) :
  Forall (fun a => p a = false) l -> filter p l = [].
Proof.
  induction 1 as [|a l Ha _ IH]; simpl; [|rewrite Ha]; auto.
Qed.

Lemma create_building_spec i w :
  wp (_create_building i)
     (fun _ w' =>
        exists g b, w' = set_buildings (buildings w ++ [b]) (set_rng g w)
                    /\ on_fire b = false)
     w.
Proof.
  cbv delta [_create_building]; cbv beta. wpe_run.
  eexists _, _. split; reflexivity.
Qed.

Lemma of_int_nonzero n : n <> O -> ~ of_int n == 0.
Proof.
  unfold of_int, inject_Z, Qeq. simpl. lia.
Qed.

Lemma create_station_spec grid_size i w :
  grid_size <> O ->
  wp (_create_station grid_size i)
     (fun _ w' =>
        exists g s,
          w' = set_water_stations (water_stations w ++ [s]) (set_rng g w)
          /\ station_placed (city_size w) grid_size i s)
     w.
Proof.
  intros Hg. cbv delta [_create_station]; cbv beta. wpe_run.
  - apply Nat.eqb_eq in Heqb. contradiction.
  - eexists _, _. split; [reflexivity|]. subst_locals.
    eexists _, _. simpl. repeat split; try reflexivity; lra.
  - eapply of_int_nonzero; eauto.
  - eapply of_int_nonzero; eauto.
Qed.

Lemma create_robot_spec i w :
  wp (_create_robot i)
     (fun _ w' => exists g r, w' = set_robots (robots w ++ [r]) (set_rng g w))
     w.
Proof.
  cbv delta [_create_robot]; cbv beta. wpe_run.
  all: eexists _, _; reflexivity.
Qed.

Lemma start_fire_spec bid w b :
  nth_error (buildings w) bid = Some b ->
  wp (_start_fire sqrt bid)
     (fun _ w' =>
        exists g b' f,
          w' = set_fires (fires w ++ [f])
                 (set_buildings (set_nth bid b' (buildings w)) (set_rng g w))
          /\ on_fire b' = true /\ building_id f = bid)
     w.
Proof.
  intros Hb. cbv delta [_start_fire _calculate_fire_priority]; cbv beta.
  wpe_run.
  all: sim_fields; try congruence.
  eexists _, _, _. split; [reflexivity|]. split; reflexivity.
Qed.

Lemma buildings_loop_spec w0 :
  buildings w0 = [] -> fires w0 = [] -> water_stations w0 = [] ->
  wp (for_each (seq 0 (num_buildings w0)) _create_building)
     (fun _ w =>
        same_config w0 w /\ fires w = [] /\ water_stations w = []
        /\ Forall (fun b => on_fire b = false) (buildings w)
        /\ length (buildings w) = num_buildings w0)
     w0.
Proof.
  intros Hb Hf Hs.
  set (I := fun (xs : list nat) (w : RescueBotsSimulation) =>
              same_config w0 w /\ fires w = [] /\ water_stations w = []
              /\ Forall (fun b => on_fire b = false) (buildings w)
              /\ (length (buildings w) + length xs)%nat = num_buildings w0).
  apply wpe_mono with (E := fun _ => False) (Q := fun _ => I []); auto.
  - unfold I. simpl. intros _ w (? & ? & ? & ? & ?).
    split; [assumption|]. repeat split; auto. lia.
  - apply wpe_for_each_rest.
    + intros x xs w (Hc & Hf' & Hs' & Hnf & Hlen).
      eapply wpe_mono; [| |apply create_building_spec]; auto.
      cbv beta. intros _ w' (g & b & -> & Hb'). unfold I. sim_fields.
      repeat split; auto; try apply Hc.
      * apply Forall_app. split; auto.
      * rewrite length_app. simpl in *. lia.
    + unfold I. rewrite Hb, length_seq. unfold same_config.
      repeat split; auto.
Qed.

Lemma stations_loop_spec w0 w :
  same_config w0 w -> water_stations w = [] ->
  wp (for_each (seq 0 (num_stations w0))
               (_create_station (Nat.sqrt (num_stations w0))))
     (fun _ w' =>
        same_config w0 w' /\ fires w' = fires w
        /\ buildings w' = buildings w
        /\ length (water_stations w') = num_stations w0
        /\ forall i s, nth_error (water_stations w') i = Some s ->
             station_placed (city_size w0) (Nat.sqrt (num_stations w0)) i s)
     w.
Proof.
  intros Hc Hs.
  set (ns := num_stations w0).
  set (I := fun (xs : list nat) (w' : RescueBotsSimulation) =>
              same_config w0 w' /\ fires w' = fires w
              /\ buildings w' = buildings w
              /\ (length (water_stations w') <= ns)%nat
              /\ xs = seq (length (water_stations w'))
                          (ns - length (water_stations w'))
              /\ forall i s, nth_error (water_stations w') i = Some s ->
                   station_placed (city_size w0) (Nat.sqrt ns) i s).
  apply wpe_mono with (E := fun _ => False) (Q := fun _ => I []); auto.
  - unfold I. intros _ w' (? & ? & ? & Hle & Hxs & ?).
    split; [assumption|]. repeat split; auto.
    apply (f_equal (@length nat)) in Hxs. rewrite length_seq in Hxs.
    simpl in Hxs. lia.
  - apply wpe_for_each_rest.
    + intros x xs w' (Hc' & Hf' & Hb' & Hle & Hxs & Hpl).
      destruct (ns - length (water_stations w'))%nat as [|m] eqn:Hm;
        [discriminate|].
      simpl in Hxs. injection Hxs as -> ->.
      eapply wpe_mono; [| |apply create_station_spec]; auto.
      * cbv beta. intros _ w'' (g & s & -> & Hs'). unfold I. sim_fields.
        rewrite length_app. simpl.
        repeat split; auto; try apply Hc'; try lia.
        -- f_equal; lia.
        -- intros i s0 Hi.
           destruct (Nat.lt_ge_cases i (length (water_stations w')))
             as [Hlt|Hge].
           ++ rewrite nth_error_app1 in Hi by exact Hlt. auto.
           ++ rewrite nth_error_app2 in Hi by exact Hge.
              destruct (i - length (water_stations w'))%nat as [|k] eqn:Hk;
                simpl in Hi; [|destruct k; discriminate].
              injection Hi as <-.
              assert (i = length (water_stations w')) by lia. subst i.
              destruct Hc' as (Hcs & _). rewrite <- Hcs. exact Hs'.
      * intros Hz. pose proof (Nat.sqrt_spec ns ltac:(lia)) as Hsq.
        rewrite Hz in Hsq. simpl in Hsq. lia.
    + unfold I. rewrite Hs. simpl. rewrite Nat.sub_0_r.
      repeat split; auto; try apply Hc; try lia.
      intros [|i] s Hi; discriminate.
Qed.

Lemma robots_loop_spec w0 w :
  unlit w0 w ->
  wp (for_each (seq 0 (num_robots w0)) _create_robot) (fun _ => unlit w0) w.
Proof.
  intros Hw. apply wpe_for_each; auto.
  intros x w1 _ Hw1.
  eapply wpe_mono; [| |apply create_robot_spec]; auto.
  cbv beta. intros _ w2 (g & r & ->).
  destruct Hw1 as (Hc & Hf & Hnf & Hlen & Hns & Hpl).
  unfold unlit. sim_fields. repeat split; auto; apply Hc.
Qed.

Lemma fires_loop_spec w0 l :
  NoDup l -> Forall (fun i => (i < num_buildings w0)%nat) l ->
  forall done w,
    NoDup (done ++ l) -> lit w0 done w ->
    wp (for_each l (_start_fire sqrt)) (fun _ => lit w0 (done ++ l)) w.
Proof.
  induction l as [|x xs IH]; intros Hnd Hran done w Hall Hw;
    cbn [for_each].
  - apply wpe_ret. rewrite app_nil_r. exact Hw.
  - inversion Hnd as [|? ? Hx Hxs]; subst.
    inversion Hran as [|? ? Hlt Hran']; subst.
    destruct Hw as (Hc & Hmap & Hburn & Hon & Hlen & Hst).
    destruct (nth_error (buildings w) x) as [b|] eqn:Hb;
      [|apply nth_error_None in Hb; lia].
    assert (Hoff : on_fire b = false).
    { destruct (on_fire b) eqn:E; auto.
      apply (Hon x b Hb) in E.
      apply NoDup_remove_2 in Hall. exfalso. apply Hall.
      apply in_or_app. auto. }
    apply wpe_bind.
    eapply wpe_mono; [| |apply (start_fire_spec x w b Hb)]; auto.
    cbv beta. intros _ w' (g & b' & f & -> & Hb' & Hf).
    replace (done ++ x :: xs) with ((done ++ [x]) ++ xs)
      by (rewrite <- app_assoc; reflexivity).
    apply IH; auto.
    + rewrite <- app_assoc. exact Hall.
    + unfold lit, burning. sim_fields. rewrite length_set_nth.
      repeat split; auto; try apply Hc.
      * rewrite map_app, Hmap. simpl. rewrite Hf. reflexivity.
      * rewrite (burning_set_nth _ _ _ _ Hb Hoff Hb').
        rewrite length_app. simpl. unfold burning in Hburn. lia.
      * intros i b0 Hi Hb0. apply in_or_app.
        destruct (Nat.eq_dec x i) as [->|Hne]; [simpl; auto|].
        rewrite nth_error_set_nth_neq in Hi by exact Hne.
        left. eauto.
Qed.

(** The constructor's work, when there are no more fires to start than
    buildings. *)
Lemma initialize_city_spec w0 :
  buildings w0 = [] -> fires w0 = [] -> water_stations w0 = [] ->
  (num_fires w0 <= num_buildings w0)%nat ->
  wp (_initialize_city sqrt)
     (fun _ w =>
        same_config w0 w
        /\ NoDup (map building_id (fires w))
        /\ length (fires w) = num_fires w0
        /\ burning w = num_fires w0
        /\ total_fires_started w = num_fires w0
        /\ length (buildings w) = num_buildings w0
        /\ length (water_stations w) = num_stations w0
        /\ forall i s, nth_error (water_stations w) i = Some s ->
             station_placed (city_size w0) (Nat.sqrt (num_stations w0)) i s)
     w0.
Proof.
  intros Hb Hf Hs Hle. cbv delta [_initialize_city]; cbv beta.
  wpe_step; cbv beta. wpe_step; cbv beta. wpe_step; cbv beta.
  eapply wpe_mono; [| |apply (buildings_loop_spec w0 Hb Hf Hs)]; auto.
  cbv beta. intros _ w1 (Hc1 & Hf1 & Hs1 & Hnf1 & Hlen1).
  wpe_step; cbv beta. wpe_step; cbv beta. wpe_step; cbv beta.
  wpe_step; cbv beta. subst_locals.
  replace (num_stations w1) with (num_stations w0) by (symmetry; apply Hc1).
  eapply wpe_mono; [| |apply (stations_loop_spec w0 w1 Hc1 Hs1)]; auto.
  cbv beta. intros _ w2 (Hc2 & Hf2 & Hb2 & Hlen2 & Hpl2).
  assert (Hw2 : unlit w0 w2).
  { unfold unlit. rewrite Hf2, Hb2. repeat split; auto; apply Hc2. }
  wpe_step; cbv beta. wpe_step; cbv beta. wpe_step; cbv beta.
  replace (num_robots w2) with (num_robots w0) by (symmetry; apply Hc2).
  eapply wpe_mono; [| |apply (robots_loop_spec w0 w2 Hw2)]; auto.
  cbv beta. intros _ w3 (Hc3 & Hf3 & Hnf3 & Hlen3 & Hns3 & Hpl3).
  wpe_step; cbv beta. wpe_step; cbv beta. wpe_step; cbv beta.
  replace (num_buildings w0) with (num_buildings w0) by reflexivity.
  replace (num_fires w3) with (num_fires w0) by (symmetry; apply Hc3).
  eapply wpe_mono;
    [| |apply (sample_range_spec (fun _ => False))]; auto; [|lia].
  cbv beta. intros l w4 ((g & ->) & Hlen & Hnd & Hran).
  wpe_step; cbv beta.
  eapply wpe_mono;
    [| |apply (fires_loop_spec (set_rng g w3) l Hnd) with (done := [])];
    auto.
  - cbv beta. intros _ w5 (Hc5 & Hmap & Hburn & _ & Hlen5 & Hst5).
    wpe_run. unfold burning, same_config in *. sim_fields.
    simpl in Hmap, Hburn.
    destruct Hc5 as (? & ? & ? & ? & ? & ? & ?).
    destruct Hc3 as (? & ? & ? & ? & ? & ? & ?).
    repeat split; try congruence.
    + rewrite <- (length_map building_id), Hmap. congruence.
    + rewrite Hst5. exact Hpl3.
  - sim_fields.
    replace (num_buildings w3) with (num_buildings w0)
      by (symmetry; apply Hc3).
    exact Hran.
  - unfold lit, burning. sim_fields. rewrite Hf3.
    rewrite (filter_none _ _ Hnf3). unfold same_config. sim_fields.
    repeat split; auto; [|rewrite Hlen3; symmetry; apply Hc3].
    intros i b Hi Hb'. rewrite Forall_forall in Hnf3.
    apply nth_error_In in Hi. rewrite (Hnf3 b Hi) in Hb'. discriminate.
Qed.

(** The constructor returns a world with the fires and the depots of
    [initialize_city_spec]. *)
Lemma init_spec cs nr nb nf ns seed :
  (nf <= nb)%nat ->
  exists w,
    __init__ sqrt cs nr nb nf ns seed = Ok w
    /\ city_size w = cs
    /\ NoDup (map building_id (fires w))
    /\ length (fires w) = nf
    /\ burning w = nf
    /\ total_fires_started w = nf
    /\ length (buildings w) = nb
    /\ length (water_stations w) = ns
    /\ forall i s, nth_error (water_stations w) i = Some s ->
         station_placed cs (Nat.sqrt ns) i s.
Proof.
  intros Hle. unfold __init__.
  match goal with |- context [_initialize_city sqrt ?w0] =>
    pose proof (initialize_city_spec w0 eq_refl eq_refl eq_refl Hle) as H
  end.
  apply wp_Ok in H.
  destruct H as ([] & w & -> & Hc & Hnd & Hlen & Hburn & Hst & Hb & Hs & Hpl).
  exists w. repeat split; auto. apply Hc.
Qed.

End Initialization.

(** C8 (no duplicate ignition). When the configuration asks for no more
    fires than there are buildings, the constructor returns a world whose
    fires are on pairwise distinct buildings and in which exactly
    [num_fires] buildings have [on_fire] set (as many as there are fire
    records). *)
Theorem no_duplicate_ignition (sqrt : Q -> Q) (cs : Q) (nr nb nf ns : nat)
    (seed : Random) :
  (nf <= nb)%nat ->
  exists w,
    __init__ sqrt cs nr nb nf ns seed = Ok w
    /\ NoDup (map building_id (fires w))
    /\ burning w = nf
    /\ length (fires w) = nf.
Proof.
  intros Hle.
  destruct (init_spec sqrt cs nr nb nf ns seed Hle)
    as (w & Hw & _ & Hnd & Hlen & Hburn & _).
  exists w. auto.
Qed.

Lemma no_duplicate_ignition_witness :
  (2 <= 3)%nat
  /\ exists w,
       __init__ sqrt_floor 200 2 3 2 1 example_seed = Ok w
       /\ NoDup (map building_id (fires w))
       /\ burning w = 2%nat
       /\ length (fires w) = 2%nat.
Proof.
  split; [lia|].
  apply (no_duplicate_ignition sqrt_floor 200 2 3 2 1 example_seed). lia.
Defined.

(** C3 (depot placement), evaluated on the default configuration: the
    grid has [int(sqrt(5)) = 2] columns, not 3, so that the fifth depot is
    on a third row, whose centre is at [y = 250]: whatever the random
    generator returns, the depot is above [y = 240], outside the city of
    side 200. *)
Theorem default_fifth_depot_outside (sqrt : Q -> Q) (seed : Random) :
  exists w s,
    __init__ sqrt 200 50 1000 100 5 seed = Ok w
    /\ nth_error (water_stations w) 4 = Some s
    /\ 240 <= s_y s
    /\ city_size w < s_y s.
Proof.
  destruct (init_spec sqrt 200 50 1000 100 5 seed ltac:(lia))
    as (w & Hw & Hcs & _ & _ & _ & _ & _ & Hlen & Hpl).
  destruct (nth_error (water_stations w) 4) as [s|] eqn:Hs;
    [|apply nth_error_None in Hs; lia].
  exists w, s. split; [exact Hw|]. split; [exact Hs|].
  destruct (Hpl 4%nat s Hs) as (jx & jy & _ & _ & Hjy & _ & _ & Hy).
  rewrite Hcs, Hy.
  assert (Hc : (of_int (4 / Nat.sqrt 5) + 0.5) * (200 / of_int (Nat.sqrt 5))
               == 250) by (vm_compute; reflexivity).
  rewrite Hc. split; lra.
Qed.

(** ** The assignment policy *)

Section MinBy.

Context {A K : Type}.
Variable lt : K -> K -> bool.
Variable key : A -> K.

Hypothesis lt_trans :
  forall a b c, lt a b = true -> lt b c = true -> lt a c = true.
Hypothesis lt_le_trans :
  forall a b c, lt a b = true -> lt c b = false -> lt a c = true.

Let pick (best : A * K) (y : A) : A * K :=
  let ky := key y in if lt ky (snd best) then (y, ky) else best.

Lemma fold_pick_spec (xs l1 l2 : list A) (b : A) :
  (forall y, In y l1 -> lt (key b) (key y) = true) ->
  (forall y, In y l2 -> lt (key y) (key b) = false) ->
  exists m l1' l2',
    fst (fold_left pick xs (b, key b)) = m
    /\ l1 ++ b :: l2 ++ xs = l1' ++ m :: l2'
    /\ (forall y, In y l1' -> lt (key m) (key y) = true)
    /\ (forall y, In y l2' -> lt (key y) (key m) = false).
Proof.
  revert l1 l2 b. induction xs as [|x xs IH]; intros l1 l2 b H1 H2; simpl.
  - exists b, l1, l2. rewrite app_nil_r. auto.
  - unfold pick at 2. cbn [snd]. destruct (lt (key x) (key b)) eqn:Hx.
    + destruct (IH (l1 ++ b :: l2) [] x) as (m & l1' & l2' & Hm & Hl & Ha & Hb).
      * intros y Hy. apply in_app_or in Hy. destruct Hy as [Hy|[<-|Hy]].
        -- eapply lt_trans; eauto.
        -- exact Hx.
        -- eapply lt_le_trans; eauto.
      * intros y [].
      * exists m, l1', l2'. repeat split; auto.
        rewrite <- Hl. rewrite <- app_assoc. reflexivity.
    + destruct (IH l1 (l2 ++ [x]) b) as (m & l1' & l2' & Hm & Hl & Ha & Hb).
      * exact H1.
      * intros y Hy. apply in_app_or in Hy. destruct Hy as [Hy|[<-|[]]]; auto.
      * exists m, l1', l2'. repeat split; auto.
        rewrite <- Hl. rewrite <- app_assoc. reflexivity.
Qed.

(** [min(l, key=key)] returns the first element of [l] with the least key,
    and raises on the empty list only. *)
Lemma py_min_by_spec (l : list A) :
  match py_min_by lt key l with
  | None => l = []
  | Some m =>
      exists l1 l2,
        l = l1 ++ m :: l2
        /\ (forall y, In y l1 -> lt (key m) (key y) = true)
        /\ (forall y, In y l2 -> lt (key y) (key m) = false)
  end.
Proof.
  destruct l as [|x xs]; simpl; auto.
  destruct (fold_pick_spec xs [] [] x) as (m & l1 & l2 & Hm & Hl & Ha & Hb);
    try (intros y []).
  fold pick. rewrite Hm. exists l1, l2. auto.
Qed.

End MinBy.

Lemma tuple_lt_true a b : tuple_lt a b = true <-> key_lt a b.
Proof.
  unfold tuple_lt, key_lt. destruct (Z.eqb_spec (fst a) (fst b)) as [He|Hne].
  - destruct (Qeqb (snd a) (snd b)) eqn:Hq; qprop.
    + split; [discriminate|]. intros [?|[_ ?]]; [lia|lra].
    + rewrite Qltb_true. split; [auto|]. intros [?|[_ ?]]; [lia|auto].
  - rewrite Z.ltb_lt. split; [auto|]. intros [?|[? _]]; [auto|contradiction].
Qed.

Lemma tuple_lt_false a b : tuple_lt a b = false <-> key_le b a.
Proof.
  rewrite <- not_true_iff_false, tuple_lt_true. unfold key_lt, key_le.
  split.
  - intros H. destruct (Z.lt_trichotomy (fst a) (fst b)) as [?|[?|?]].
    + tauto.
    + right. split; [auto|]. apply Qnot_lt_le. tauto.
    + auto.
  - intros [?|[? ?]] [?|[? ?]]; try lia. lra.
Qed.

Lemma tuple_lt_trans a b c :
  tuple_lt a b = true -> tuple_lt b c = true -> tuple_lt a c = true.
Proof.
  rewrite !tuple_lt_true. unfold key_lt.
  intros [?|[? ?]] [?|[? ?]]; [left; lia|left; lia|left; lia|].
  right. split; [lia|lra].
Qed.

Lemma tuple_lt_le_trans a b c :
  tuple_lt a b = true -> tuple_lt c b = false -> tuple_lt a c = true.
Proof.
  rewrite !tuple_lt_true, tuple_lt_false. unfold key_lt, key_le.
  intros [?|[? ?]] [?|[? ?]]; [left; lia|left; lia|left; lia|].
  right. split; [lia|lra].
Qed.

Lemma Qltb_trans a b c :
  Qltb a b = true -> Qltb b c = true -> Qltb a c = true.
Proof. rewrite !Qltb_true. lra. Qed.

Lemma Qltb_le_trans a b c :
  Qltb a b = true -> Qltb c b = false -> Qltb a c = true.
Proof. rewrite !Qltb_true, Qltb_false. lra. Qed.

Section Assignment.

Variable sqrt : Q -> Q.

Lemma fires_needing_help_spec bs fs w :
  Forall (fun f => (building_id f < length bs)%nat) fs ->
  wp (fires_needing_help bs fs)
     (fun l w' =>
        w' = w
        /\ map fst l = filter (needs_help bs) fs
        /\ Forall (fun fb => nth_error bs (building_id (fst fb))
                             = Some (snd fb)) l)
     w.
Proof.
  induction 1 as [|f fs Hf _ IH]; cbn [fires_needing_help filter].
  - apply wpe_ret. auto.
  - unfold needs_help at 1, candidate.
    destruct (Qltb 0 (intensity f)); cbn [andb].
    + destruct (nth_error bs (building_id f)) as [b|] eqn:Hb;
        [|apply nth_error_None in Hb; lia].
      apply wpe_bind, wpe_index; [|congruence].
      intros b' Hb'. assert (b' = b) by congruence. subst b'.
      apply wpe_bind. eapply wpe_mono; [| |exact IH]; auto.
      cbv beta. intros l w' (-> & Hl & Hv). apply wpe_ret.
      split; [reflexivity|].
      replace (on_fire b && negb (destroyed b))
        with (negb (destroyed b) && on_fire b) by apply andb_comm.
      destruct (negb (destroyed b) && on_fire b); simpl; auto.
      split; [congruence|auto].
    + exact IH.
Qed.

Lemma fire_key_composite bs r fb :
  nth_error bs (building_id (fst fb)) = Some (snd fb) ->
  fire_key sqrt r fb = composite_key sqrt bs r (fst fb).
Proof.
  intros H. unfold fire_key, composite_key, fire_distance. rewrite H.
  f_equal. lia.
Qed.

(** The visit of a robot, when no exception can be raised. *)
Lemma assign_robot_assigns i w r :
  nth_error (robots w) i = Some r ->
  fires_in_range w -> water_stations w <> [] ->
  wp (assign_robot sqrt i)
     (fun _ w' =>
        exists r', assigned sqrt w r r'
                   /\ w' = set_robots (set_nth i r' (robots w)) w)
     w.
Proof.
  intros Hr Hfs Hsts. cbv delta [assign_robot]; cbv beta.
  assert (Hsame : w = set_robots (set_nth i r (robots w)) w)
    by (rewrite (set_nth_same _ _ _ Hr), set_robots_same; reflexivity).
  unfold assigned.
  wpe_step; cbv beta. wpe_step; cbv beta. wpe_step; cbv beta.
  wpe_step; [|congruence]. cbv beta.
  match goal with
  | H : nth_error (robots _) _ = Some ?a |- _ =>
      assert (a = r) by congruence; subst a
  end.
  destruct (Qltb (water_capacity r) (max_water_capacity r * 0.2)).
  - wpe_step; cbv beta. wpe_step; cbv beta.
    pose proof (py_min_by_spec Qltb (station_key sqrt r)
                  Qltb_trans Qltb_le_trans (water_stations w)) as Hmin.
    destruct (py_min_by Qltb (station_key sqrt r) (water_stations w))
      as [s|]; [|contradiction].
    wpe_step. eexists. split; [|reflexivity].
    exists s. split; [|reflexivity].
    destruct Hmin as (l1 & l2 & Hl & H1 & H2). exists l1, l2.
    repeat split; auto.
    + intros y Hy. apply Qltb_true. auto.
    + intros y Hy. apply Qltb_false. auto.
  - destruct (Qltb 0 (water_capacity r)).
    + wpe_step; cbv beta. wpe_step; cbv beta.
      wpe_step; cbv beta. wpe_step; cbv beta. wpe_step; cbv beta.
      eapply wpe_mono; [| |apply fires_needing_help_spec; exact Hfs]; auto.
      cbv beta. intros l w' (-> & Hl & Hv).
      pose proof (py_min_by_spec tuple_lt (fire_key sqrt r)
                    tuple_lt_trans tuple_lt_le_trans l) as Hmin.
      destruct (py_min_by tuple_lt (fire_key sqrt r) l) as [m|].
      * wpe_step. eexists. split; [|reflexivity].
        right. exists (fst m). split; [|reflexivity].
        destruct Hmin as (l1 & l2 & -> & H1 & H2).
        rewrite map_app in Hl. simpl in Hl.
        exists (map fst l1), (map fst l2). split; [auto|].
        rewrite Forall_forall in Hv.
        assert (Hm : fire_key sqrt r m
                     = composite_key sqrt (buildings w) r (fst m))
          by (apply fire_key_composite, Hv, in_or_app; simpl; auto).
        split; intros c Hc; apply in_map_iff in Hc;
          destruct Hc as (y & <- & Hy);
          rewrite <- Hm, <- (fire_key_composite (buildings w) r y)
            by (apply Hv, in_or_app; simpl; auto).
        -- apply tuple_lt_true. auto.
        -- apply tuple_lt_false. auto.
      * subst l. wpe_step. exists r. split; [|exact Hsame].
        left. split; [|reflexivity]. simpl in Hl. auto.
    + wpe_step. exists r. split; [reflexivity|exact Hsame].
Qed.

Lemma Forall2_nth_error {A B : Type} (P : A -> B -> Prop) (l : list A)
    (l' : list B) (i : nat) (a : A) :
  Forall2 P l l' -> nth_error l i = Some a ->
  exists b, nth_error l' i = Some b /\ P a b.
Proof.
  intros H. revert i. induction H as [|x y xs ys Hxy _ IH]; intros [|i] Hi;
    simpl in *; try discriminate.
  - injection Hi as <-. eauto.
  - auto.
Qed.

(** The whole pass returns, and visits every untargeted robot. *)
Lemma assign_targets_assigns w i r :
  fires_in_range w -> water_stations w <> [] ->
  nth_error (robots w) i = Some r -> untargeted r = true ->
  exists w' r',
    assign_targets sqrt w = Ok (tt, w')
    /\ nth_error (robots w') i = Some r'
    /\ assigned sqrt w r r'.
Proof.
  intros Hfs Hsts Hr Hun.
  assert (H : wp (assign_targets sqrt)
                 (fun _ w' =>
                    w' = set_robots (robots w') w
                    /\ Forall2 (fun r r' =>
                                  (untargeted r = true -> assigned sqrt w r r')
                                  /\ (untargeted r = false -> r' = r))
                               (robots w) (robots w'))
                 w).
  { apply assign_targets_pass. intros j w' r0 Hframe Hr0 Hun0.
    assert (Hfs' : fires_in_range w')
      by (rewrite Hframe; exact Hfs).
    assert (Hsts' : water_stations w' <> [])
      by (rewrite Hframe; exact Hsts).
    eapply wpe_mono;
      [| |apply (assign_robot_assigns j w' r0 Hr0 Hfs' Hsts')]; auto.
    cbv beta. intros _ w'' (r' & Ha & ->). exists r'. split; [|reflexivity].
    rewrite Hframe in Ha. exact Ha. }
  apply wp_Ok in H. destruct H as ([] & w' & Hrun & _ & Hall).
  destruct (Forall2_nth_error _ _ _ i r Hall Hr) as (r' & Hr' & Ht & _).
  exists w', r'. auto.
Qed.

End Assignment.
Lemma reachable_fires (sqrt : Q -> Q) (w : RescueBotsSimulation) :
  reachable sqrt w -> fires_in_range w /\ fires_alive w.
Proof.
  intros H. apply reachable_WF in H. destruct H as [_ _ _ Hf _ _ _].
  unfold fires_in_range, fires_alive. split.
  - eapply Forall_impl; [|exact Hf]. unfold fire_ok. tauto.
  - eapply Forall_impl; [|exact Hf]. unfold fire_ok. tauto.
Qed.

(** C6 (low-water redirect). On a world with at least one depot, whose
    fires are on buildings of the city, the assignment pass returns, and an
    untargeted robot whose water is below 20% of its maximum leaves it
    with the first of the nearest depots as [target_station] and without
    [target_building], whatever the fires are. *)
Theorem low_water_redirect (sqrt : Q -> Q) (w : RescueBotsSimulation)
    (i : nat) (r : Robot) :
  fires_in_range w -> water_stations w <> [] ->
  nth_error (robots w) i = Some r -> untargeted r = true ->
  water_capacity r < max_water_capacity r * 0.2 ->
  exists w' r' s,
    assign_targets sqrt w = Ok (tt, w')
    /\ nth_error (robots w') i = Some r'
    /\ first_least Qlt Qle (station_key sqrt r) (water_stations w) s
    /\ target_station r' = Some (s_id s)
    /\ target_building r' = None.
Proof.
  intros Hfs Hsts Hr Hun Hlow.
  destruct (assign_targets_assigns sqrt w i r Hfs Hsts Hr Hun)
    as (w' & r' & Hrun & Hr' & Ha).
  unfold assigned in Ha. apply Qltb_true in Hlow. rewrite Hlow in Ha.
  destruct Ha as (s & Hs & ->).
  exists w', (set_target_station (Some (s_id s)) r), s.
  repeat split; auto. simpl.
  unfold untargeted in Hun. apply andb_prop in Hun.
  destruct (target_building r); [destruct Hun; discriminate|reflexivity].
Qed.

Lemma low_water_redirect_witness :
  exists w' r' s,
    assign_targets sqrt_floor assign_world = Ok (tt, w')
    /\ nth_error (robots w') 1 = Some r'
    /\ first_least Qlt Qle (station_key sqrt_floor low_robot)
                   (water_stations assign_world) s
    /\ target_station r' = Some (s_id s)
    /\ target_building r' = None.
Proof.
  apply (low_water_redirect sqrt_floor assign_world 1 low_robot).
  - repeat constructor.
  - discriminate.
  - reflexivity.
  - reflexivity.
  - vm_compute. reflexivity.
Defined.

Lemma filter_alive (w : RescueBotsSimulation) :
  fires_alive w ->
  filter (needs_help (buildings w)) (fires w)
  = filter (candidate (buildings w)) (fires w).
Proof.
  intros H. apply filter_ext_in. intros f Hf.
  unfold fires_alive in H. rewrite Forall_forall in H.
  unfold needs_help. rewrite (proj2 (Qltb_true _ _) (H f Hf)). reflexivity.
Qed.

(** C7 (fire selection). On a world with at least one depot, whose fires
    have positive intensity and are on buildings of the city (as in every
    reachable world), the assignment pass returns, and an untargeted robot
    with at least 20% of its water, and some, leaves it as it was if no
    active fire is on a structure that is on fire and not destroyed;
    otherwise its [target_building] is the structure of the first of these
    fires with the least key [(-100 * priority, distance)] in the
    lexicographic order.  In particular, between two such fires of equal
    priority at distances 3 and 7, the fire at distance 3 is chosen. *)
Theorem best_fire_selection (sqrt : Q -> Q) (w : RescueBotsSimulation)
    (i : nat) (r : Robot) :
  fires_in_range w -> fires_alive w -> water_stations w <> [] ->
  nth_error (robots w) i = Some r -> untargeted r = true ->
  max_water_capacity r * 0.2 <= water_capacity r ->
  0 < water_capacity r ->
  exists w' r',
    assign_targets sqrt w = Ok (tt, w')
    /\ nth_error (robots w') i = Some r'
    /\ (filter (candidate (buildings w)) (fires w) = [] -> r' = r)
    /\ (filter (candidate (buildings w)) (fires w) <> [] ->
        exists best,
          first_least key_lt key_le (composite_key sqrt (buildings w) r)
                      (filter (candidate (buildings w)) (fires w)) best
          /\ target_building r' = Some (building_id best)
          /\ target_station r' = None)
    /\ (forall f3 f7,
          filter (candidate (buildings w)) (fires w) = [f3; f7]
          \/ filter (candidate (buildings w)) (fires w) = [f7; f3] ->
          priority f3 = priority f7 ->
          fire_distance sqrt (buildings w) r f3 == 3 ->
          fire_distance sqrt (buildings w) r f7 == 7 ->
          target_building r' = Some (building_id f3)).
Proof.
  intros Hfs Hal Hsts Hr Hun Hnl Hw.
  destruct (assign_targets_assigns sqrt w i r Hfs Hsts Hr Hun)
    as (w' & r' & Hrun & Hr' & Ha).
  unfold assigned in Ha.
  apply Qltb_false in Hnl. apply Qltb_true in Hw. rewrite Hnl, Hw in Ha.
  unfold to_best_fire in Ha. rewrite (filter_alive w Hal) in Ha.
  assert (Hst : target_station r = None).
  { unfold untargeted in Hun. apply andb_prop in Hun.
    destruct (target_station r); [destruct Hun; discriminate|reflexivity]. }
  exists w', r'. split; [exact Hrun|]. split; [exact Hr'|].
  set (cands := filter (candidate (buildings w)) (fires w)) in *.
  destruct Ha as [[Hnil ->]|(best & Hbest & ->)].
  - split; [auto|]. split; [congruence|].
    intros f3 f7 [H|H]; rewrite H in Hnil; discriminate.
  - split.
    { intros Hnil. destruct Hbest as (l1 & l2 & Hl & _).
      rewrite Hnil in Hl. destruct l1; discriminate. }
    split.
    { intros _. exists best. auto. }
    intros f3 f7 Hc Hp H3 H7. simpl. f_equal. f_equal.
    destruct Hbest as (l1 & l2 & Hl & H1 & H2).
    assert (Hno : ~ key_le (composite_key sqrt (buildings w) r f7)
                           (composite_key sqrt (buildings w) r f3)).
    { unfold key_le, composite_key. simpl. rewrite Hp, H3, H7.
      intros [?|[_ ?]]; [lia|lra]. }
    assert (Hlt : forall a b, key_lt a b -> key_le a b).
    { unfold key_lt, key_le. intros a b [?|[? ?]]; [auto|right].
      split; [auto|lra]. }
    destruct Hc as [Hc|Hc]; rewrite Hc in Hl;
      destruct l1 as [|x [|y l1]]; simpl in Hl; try congruence.
    + injection Hl as <- <- <-. exfalso. apply Hno, Hlt, H1. simpl. auto.
    + injection Hl as _ _ Hl. destruct l1; discriminate.
    + injection Hl as <- <-. exfalso. apply Hno, H2. simpl. auto.
    + injection Hl as _ _ Hl. destruct l1; discriminate.
Qed.

Lemma best_fire_selection_witness :
  exists w' r',
    assign_targets sqrt_floor assign_world = Ok (tt, w')
    /\ nth_error (robots w') 0 = Some r'
    /\ (filter (candidate (buildings assign_world)) (fires assign_world) = []
        -> r' = full_robot)
    /\ (filter (candidate (buildings assign_world)) (fires assign_world) <> []
        -> exists best,
          first_least key_lt key_le
                      (composite_key sqrt_floor (buildings assign_world)
                                     full_robot)
                      (filter (candidate (buildings assign_world))
                              (fires assign_world))
                      best
          /\ target_building r' = Some (building_id best)
          /\ target_station r' = None)
    /\ (forall f3 f7,
          filter (candidate (buildings assign_world)) (fires assign_world)
          = [f3; f7]
          \/ filter (candidate (buildings assign_world)) (fires assign_world)
             = [f7; f3] ->
          priority f3 = priority f7 ->
          fire_distance sqrt_floor (buildings assign_world) full_robot f3 == 3 ->
          fire_distance sqrt_floor (buildings assign_world) full_robot f7 == 7 ->
          target_building r' = Some (building_id f3)).
Proof.
  apply (best_fire_selection sqrt_floor assign_world 0 full_robot).
  - repeat constructor.
  - repeat constructor.
  - discriminate.
  - reflexivity.
  - reflexivity.
  - vm_compute. discriminate.
  - vm_compute. reflexivity.
Defined.

(** The tie-break of C7, evaluated: the fires of [assign_world] have the
    same priority and are, in the order of the list, at distances 7 and 3
    from robot 0, which the pass sends to building 1; robot 1, low on
    water, is sent to depot 1, at distance 4, not to depot 0, at
    distance 5. *)
Example assign_world_targets :
  match assign_targets sqrt_floor assign_world with
  | Ok (_, w') =>
      map (fun r => (target_building r, target_station r)) (robots w')
  | Raise _ => []
  end
  = [(Some 1%nat, None); (None, Some 1%nat)].
Proof. vm_compute. reflexivity. Qed.

(** ** Extinguishing *)

Lemma py_min3_first (a b c : Q) : a <= b -> a <= c -> py_min3 a b c = a.
Proof.
  intros Hb Hc. unfold py_min3, py_min.
  rewrite (proj2 (Qltb_false b a) Hb).
  rewrite (proj2 (Qltb_false c a) Hc). reflexivity.
Qed.

Section Extinguishing.

Variable sqrt : Q -> Q.

Lemma fighting_eq w tb v v' n :
  v == v' -> fighting sqrt w tb v n -> fighting sqrt w tb v' n.
Proof.
  intros Hv (robot & building & H).
  exists robot, building. intuition (auto; lra).
Qed.

(** One pass on a fire of intensity at least 1: the structure loses 1, and
    the fire is out if this was all of it. *)
Lemma pass_extinguishes_one w tb v n :
  fighting sqrt w tb v n -> 1 <= v ->
  wp (update_robots sqrt)
     (fun _ w' =>
        (1 < v -> fighting sqrt w' tb (v - 1) n)
        /\ (v == 1 ->
            exists robot building,
              robots w' = [robot]
              /\ nth_error (buildings w') tb = Some building
              /\ on_fire building = false
              /\ fire_intensity building == 0
              /\ fires_extinguished robot = S n))
     w.
Proof.
  intros (robot & building & Hrs & Hts & Htb & Hb & Hon & Hnd & Hd & Hrate
          & Hdt & Hv & Hw & Hn) H1.
  pose proof (nth_error_lt _ _ _ Hb) as Hlt.
  cbv delta [update_robots]; cbv beta. wpe_step; cbv beta. wpe_step.
  rewrite Hrs. cbn [length seq for_each].
  cbv delta [update_robot track_distance move_towards]; cbv beta.
  wpe_step; cbv beta. wpe_step; cbv beta. wpe_step; cbv beta.
  rewrite Hrs. wpe_step; cbv beta. wpe_step; cbv beta.
  match goal with
  | H : nth_error [robot] _ = Some ?a |- _ =>
      assert (a = robot) by (simpl in H; congruence); subst a
  end.
  wpe_run.
  all: subst_locals.
  all: try congruence.
  all: repeat match goal with
         | H : nth_error (buildings _) _ = Some ?a,
           H' : nth_error (buildings _) _ = Some ?b |- _ =>
             assert (a = b) by congruence; subst a; clear H
         | H : Some _ = Some _ |- _ => injection H as <-
         end.
  all: try (rewrite Hon, Hnd in *; discriminate).
  all: try (rewrite Hon in *; simpl in *; exfalso; bprop; lra).
  all: try (exfalso; bprop; lra).
  all: subst_locals; sim_fields; bprop.
  all: assert (Hone : extinguish_rate robot * dt w == 1)
         by (rewrite Hrate, Hdt; reflexivity).
  all: cbn [fire_intensity set_fire_intensity] in *.
  all: try rewrite py_min3_first in * by lra.
  - (* the fire is out *)
    split; [intros; exfalso; lra|]. intros _.
    eexists _, _. rewrite Hrs. cbn [set_nth].
    rewrite nth_error_set_nth_eq by exact Hlt.
    repeat split; simpl; try reflexivity. congruence.
  - (* the fire still burns *)
    split; [|intros; exfalso; lra]. intros _.
    unfold fighting. sim_fields.
    eexists _, _. rewrite Hrs. cbn [set_nth].
    rewrite nth_error_set_nth_eq by exact Hlt.
    repeat split; simpl; auto; try lra.
Qed.

Lemma pass_fights w tb v n :
  fighting sqrt w tb v n -> 1 < v ->
  exists w', update_robots sqrt w = Ok (tt, w')
             /\ fighting sqrt w' tb (v - 1) n.
Proof.
  intros Hf Hv.
  pose proof (pass_extinguishes_one w tb v n Hf ltac:(lra)) as H.
  apply wp_Ok in H. destruct H as ([] & w' & Hrun & H & _). eauto.
Qed.

Lemma pass_puts_out w tb n :
  fighting sqrt w tb 1 n ->
  exists w' robot building,
    update_robots sqrt w = Ok (tt, w')
    /\ robots w' = [robot]
    /\ nth_error (buildings w') tb = Some building
    /\ on_fire building = false
    /\ fire_intensity building == 0
    /\ fires_extinguished robot = S n.
Proof.
  intros Hf.
  pose proof (pass_extinguishes_one w tb 1 n Hf ltac:(lra)) as H.
  apply wp_Ok in H. destruct H as ([] & w' & Hrun & _ & H).
  destruct (H ltac:(reflexivity)) as (robot & building & H').
  exists w', robot, building. tauto.
Qed.

End Extinguishing.

Lemma adjacent_world_fighting : fighting sqrt_floor adjacent_world 0 5 0.
Proof.
  eexists _, _. repeat split; try reflexivity.
  vm_compute. discriminate.
Defined.

(** C2 (extinguishment), amended: the passes are those of the movement and
    action integrator.  For a world whose only robot is within the arrival
    radius of the structure it targets, which burns with intensity 5, the
    robot extinguishing 10 per unit of time with water for the fire, and
    [dt = 0.1]: after one pass the intensity of the structure is 4 and it
    is still on fire; after 5 passes its intensity is at most 0, it is not
    on fire, and the robot's [fires_extinguished] has increased by 1. *)
Theorem adjacent_extinguish_passes (sqrt : Q -> Q)
    (w : RescueBotsSimulation) (tb n : nat) :
  fighting sqrt w tb 5 n ->
  (exists w1 b1,
      update_robots sqrt w = Ok (tt, w1)
      /\ nth_error (buildings w1) tb = Some b1
      /\ fire_intensity b1 == 4 /\ on_fire b1 = true)
  /\ (exists w5 r5 b5,
         passes sqrt 5 w = Ok w5
         /\ robots w5 = [r5]
         /\ nth_error (buildings w5) tb = Some b5
         /\ fire_intensity b5 <= 0 /\ on_fire b5 = false
         /\ fires_extinguished r5 = S n).
Proof.
  intros H5.
  destruct (pass_fights sqrt w tb 5 n H5 ltac:(lra)) as (w1 & Hr1 & H4).
  apply (fighting_eq sqrt w1 tb (5 - 1) 4 n ltac:(lra)) in H4.
  destruct (pass_fights sqrt w1 tb 4 n H4 ltac:(lra)) as (w2 & Hr2 & H3).
  apply (fighting_eq sqrt w2 tb (4 - 1) 3 n ltac:(lra)) in H3.
  destruct (pass_fights sqrt w2 tb 3 n H3 ltac:(lra)) as (w3 & Hr3 & H2).
  apply (fighting_eq sqrt w3 tb (3 - 1) 2 n ltac:(lra)) in H2.
  destruct (pass_fights sqrt w3 tb 2 n H2 ltac:(lra)) as (w4 & Hr4 & H1).
  apply (fighting_eq sqrt w4 tb (2 - 1) 1 n ltac:(lra)) in H1.
  destruct (pass_puts_out sqrt w4 tb n H1)
    as (w5 & r5 & b5 & Hr5 & Hrs & Hb5 & Hon5 & Hi5 & Hn5).
  split.
  - destruct H4 as (r1 & b1 & _ & _ & _ & Hb1 & Hon1 & _ & _ & _ & _ & Hi1
                    & _).
    exists w1, b1. auto.
  - exists w5, r5, b5. cbn [passes].
    rewrite Hr1, Hr2, Hr3, Hr4, Hr5.
    repeat split; auto. lra.
Qed.

Lemma adjacent_extinguish_passes_witness :
  (exists w1 b1,
      update_robots sqrt_floor adjacent_world = Ok (tt, w1)
      /\ nth_error (buildings w1) 0 = Some b1
      /\ fire_intensity b1 == 4 /\ on_fire b1 = true)
  /\ (exists w5 r5 b5,
         passes sqrt_floor 5 adjacent_world = Ok w5
         /\ robots w5 = [r5]
         /\ nth_error (buildings w5) 0 = Some b5
         /\ fire_intensity b5 <= 0 /\ on_fire b5 = false
         /\ fires_extinguished r5 = 1%nat).
Proof.
  apply (adjacent_extinguish_passes sqrt_floor adjacent_world 0 0).
  exact adjacent_world_fighting.
Defined.

(** C2 as stated fails on whole ticks: in [adjacent_world], which is as
    the claim asks, the fire evolution pass of the same tick grows the fire
    that the robot has just reduced to 4, so that after one call of [step]
    the intensity is not 4 (it is 4.07), and after 5 calls the structure
    is still on fire. *)
Lemma full_tick_grows_fire :
  fighting sqrt_floor adjacent_world 0 5 0
  /\ match tick sqrt_floor adjacent_world with
     | Ok w1 =>
         match nth_error (buildings w1) 0 with
         | Some b1 => ~ fire_intensity b1 == 4 /\ fire_intensity b1 == 4.07
         | None => False
         end
     | Raise _ => False
     end
  /\ match run sqrt_floor 5 adjacent_world with
     | Ok w5 =>
         match nth_error (buildings w5) 0, robots w5 with
         | Some b5, [r5] =>
             on_fire b5 = true /\ 0 < fire_intensity b5
             /\ fires_extinguished r5 = 0%nat
         | _, _ => False
         end
     | Raise _ => False
     end.
Proof.
  split; [exact adjacent_world_fighting|].
  split; vm_compute; repeat split; discriminate.
Qed.

(** ** The set of active fires *)

(** C1 (conservation of the fire set), evaluated on the destruction rule:
    the fire evolution pass marks the building of [destruction_world]
    destroyed and not on fire, and leaves its record in [fires] (line 317
    goes to the next fire; nothing removes this one): no structure is on
    fire and one fire is active. *)
Theorem destroyed_fire_stays_active (sqrt : Q -> Q) :
  burning destruction_world = length (fires destruction_world)
  /\ match update_fires sqrt destruction_world with
     | Ok (_, w') =>
         map (fun b => (on_fire b, destroyed b)) (buildings w')
         = [(false, true)]
         /\ burning w' = 0%nat
         /\ length (fires w') = 1%nat
         /\ total_buildings_destroyed w' = 1%nat
     | Raise _ => False
     end.
Proof.
  split; [reflexivity|]. vm_compute. repeat split.
Qed.

Section LoneFire.

Variable sqrt : Q -> Q.

(** One tick of a world with one unattended fire: the fire grows, and the
    structure is destroyed if the intensity is then above 180 after more
    than 45 units of time; its fire record stays. *)
Lemma lone_fire_tick w v t sr :
  lone_fire w v t sr -> v + sr * 0.07 <= 200 ->
  wp (step sqrt)
     (fun _ w' =>
        (180 < v + sr * 0.07 /\ 45 < t ->
         burning w' = 0%nat /\ length (fires w') = 1%nat)
        /\ (~ (180 < v + sr * 0.07 /\ 45 < t) ->
            lone_fire w' (v + sr * 0.07) (t + 0.1) sr))
     w.
Proof.
  intros (Hrs & Hdt & Ht & b & f & Hbs & Hfs & Hbid & Hfid & Hon & Hnd & Hv
          & Hst & Hsr) Hcap.
  destruct w as [cs nr nb nf ns bs rs fs sts t0 dt0 tfs tfe tbd rts g].
  cbn [robots buildings fires dt time] in *. subst rs bs fs.
  destruct f as [fid fint fsr fpr]. destruct b as [bid bx by0 bon bfi bst bd].
  cbn [b_id building_id on_fire destroyed fire_intensity fire_start_time
       spread_rate] in *. subst bid fid bon bd.
  assert (Hg : bfi + fsr * dt0 * 0.7 == v + sr * 0.07)
    by (rewrite Hv, Hsr, Hdt; ring).
  assert (Hmin : py_min (bfi + fsr * dt0 * 0.7) 200 = bfi + fsr * dt0 * 0.7).
  { unfold py_min.
    rewrite (proj2 (Qltb_false 200 (bfi + fsr * dt0 * 0.7)));
      [reflexivity|lra]. }
  cbv delta [step assign_targets update_robots update_fires update_fire
             _try_spread_fire ignite]; cbv beta.
  repeat first
    [ progress subst_locals
    | progress cbn [for_each for_each_acc length seq indices_where index
                    nth_error andb negb Nat.eqb flat_map py_min_by filter
                    targets set_nth app
                    robots buildings fires dt time rng
                    set_robots set_buildings set_fires set_rng set_time
                    set_total_buildings_destroyed
                    b_id building_id on_fire destroyed fire_intensity
                    fire_start_time spread_rate
                    set_fire_intensity set_on_fire set_destroyed
                    set_intensity]
    | wpe_step; cbv beta ].
  all: rewrite ?Hmin in *; bprop.
  all: repeat match goal with
         | H : _ && _ = false |- _ =>
             apply andb_false_iff in H; destruct H
         end; qprop.
  all: unfold burning, lone_fire; simpl; split; intros Hc.
  all: try (exfalso; lra).
  all: try (exfalso; apply Hc; split; lra).
  all: try (split; reflexivity).
  all: repeat split; auto; try lra.
  all: eexists _, _; repeat split; simpl; eauto; try lra.
Qed.

Lemma lone_fire_eq w v v' t t' sr :
  v == v' -> t == t' -> lone_fire w v t sr -> lone_fire w v' t' sr.
Proof.
  intros Hv Ht (Hrs & Hdt & Htime & b & f & H).
  repeat split; auto; [lra|].
  exists b, f. intuition (auto; lra).
Qed.

Lemma of_int_S n : of_int (S n) == of_int n + 1.
Proof.
  unfold of_int. rewrite Nat2Z.inj_succ, <- Z.add_1_r, inject_Z_plus.
  reflexivity.
Qed.

Lemma run_reachable (n : nat) :
  forall w w', reachable sqrt w -> run sqrt n w = Ok w' -> reachable sqrt w'.
Proof.
  induction n as [|n IH]; intros w w' Hw Hrun; simpl in Hrun.
  - injection Hrun as <-. exact Hw.
  - destruct (tick sqrt w) as [w1|e] eqn:Ht; [|discriminate].
    eapply IH; [|exact Hrun]. eapply reachable_step; eauto.
Qed.

(** An unattended fire that started below intensity 100 and grows at a
    rate of at most 2 destroys its building, when it passes 180, after
    more than 45 units of time; its record is still in [fires] then. *)
Lemma lone_fire_destroyed n :
  forall w v t sr,
    lone_fire w v t sr -> 0 <= sr -> sr <= 2 ->
    v <= 180 -> v <= 100 + 1.4 * t ->
    180 < v + of_int n * (sr * 0.07) ->
    exists k w',
      run sqrt k w = Ok w'
      /\ burning w' = 0%nat /\ length (fires w') = 1%nat.
Proof.
  induction n as [|n IH]; intros w v t sr Hw Hsr0 Hsr2 Hv Hinv Hn.
  - exfalso. change (of_int 0) with 0 in Hn. lra.
  - pose proof (lone_fire_tick w v t sr Hw ltac:(lra)) as Ht.
    apply wp_Ok in Ht. destruct Ht as ([] & w1 & Hstep & Hd & Hs).
    assert (Htick : tick sqrt w = Ok w1) by (unfold tick; rewrite Hstep; auto).
    destruct (Qlt_le_dec 180 (v + sr * 0.07)) as [Hgt|Hle].
    + exists 1%nat, w1. simpl. rewrite Htick. split; [reflexivity|].
      apply Hd. split; lra.
    + destruct (IH w1 (v + sr * 0.07) (t + 0.1) sr) as (k & w' & Hrun & H');
        auto; try lra.
      * apply Hs. lra.
      * rewrite of_int_S in Hn. lra.
      * exists (S k), w'. simpl. rewrite Htick. auto.
Qed.

End LoneFire.

(** The same on a world the program reaches: the lone fire of
    [lone_fire_world], left to itself, destroys its building, after which
    no structure is on fire and one fire is still active. *)
Lemma reachable_fire_set_mismatch :
  exists w,
    reachable sqrt_floor w
    /\ burning w = 0%nat /\ length (fires w) = 1%nat.
Proof.
  assert (H0 : reachable sqrt_floor lone_fire_world).
  { apply reachable_init with (cs := 200) (nr := 0%nat) (nb := 1%nat)
                              (nf := 1%nat) (ns := 1%nat)
                              (seed := largest_seed).
    vm_compute. reflexivity. }
  assert (Hl : exists v sr,
             lone_fire lone_fire_world v 0 sr
             /\ 0 <= sr /\ sr <= 2 /\ v <= 100
             /\ 180 < v + of_int 3715 * (sr * 0.07)).
  { eexists _, _. split.
    - unfold lone_fire. split; [reflexivity|]. split; [reflexivity|].
      split; [reflexivity|]. eexists _, _.
      repeat split; first [reflexivity | vm_compute; reflexivity].
    - vm_compute. repeat split; discriminate. }
  destruct Hl as (v & sr & Hl & Hsr0 & Hsr2 & Hv & Hn).
  destruct (lone_fire_destroyed sqrt_floor 3715 lone_fire_world v 0 sr)
    as (k & w & Hrun & Hw); auto; try lra.
  exists w. split; [|exact Hw].
  apply (run_reachable sqrt_floor k lone_fire_world w H0 Hrun).
Qed.

